(** * train_solution: the [Schedule] route finder of main.py

    A shallow embedding of the class [Schedule]: the weight strategies
    ([set_search_by]), the graph builder ([_get_weight_matrix]), the
    constrained nearest-neighbour solver ([_nearest_neighbor_algorithm]
    with [_check_vortex] and [_isclosevortex]) and the route printer
    ([find_the_best_route]).

    Python values are modelled as follows.
    - A call that may raise returns a [result]: [Ret v] or [Raise e].
    - A loop that may run forever takes a [fuel] (the number of iterations
      it may still start) and returns [None] when the fuel is used up.
    - The numbers of a run (ints in time mode, floats in price mode) are
      the carrier of a [PyNum] interface, which lists the operations the
      program applies to them; [math.inf] is the constructor [Inf] of
      [weight], and the float [nan], which [float] may return, the
      constructor [NaN] of [value].  [PyWhole] is the interface at the
      ints.
    - A row of the csv file is a record of six strings. *)

From Stdlib Require Import String Ascii DecimalString DecimalPos.
From Stdlib Require Import List ZArith Bool Arith Lia Permutation Sorted.
Import ListNotations.

Set Implicit Arguments.

(** ** Results of Python calls *)

Inductive exn : Type :=
| ValueError
| IndexError
| TypeError
| AttributeError
| ZeroDivisionError
| Exception (msg : string).

Inductive result (A : Type) : Type :=
| Ret (a : A)
| Raise (e : exn).

Arguments Ret {A} a.
Arguments Raise {A} e.

Definition bind {A B : Type} (c : result A) (k : A -> result B) : result B :=
  match c with
  | Ret a => k a
  | Raise e => Raise e
  end.

Notation "x <- c ;; k" := (bind c (fun x => k))
  (at level 61, c at next level, right associativity).

(** ** Python built-ins on lists and strings *)

(** [l[i]] for an index [i >= 0]. *)
Definition index {A : Type} (l : list A) (i : nat) : result A :=
  match nth_error l i with
  | Some x => Ret x
  | None => Raise IndexError
  end.

(** [enumerate(l)] *)
Definition enumerate {A : Type} (l : list A) : list (nat * A) :=
  combine (seq 0 (length l)) l.

(** [i in l] for a list of indices. *)
Definition py_in (i : nat) (l : list nat) : bool :=
  existsb (Nat.eqb i) l.

(** [[x for x in l if cond(x)]] where [cond] may raise: the first exception
    aborts the comprehension. *)
Fixpoint filterM {A : Type} (cond : A -> result bool) (l : list A)
  : result (list A) :=
  match l with
  | [] => Ret []
  | x :: r =>
      b <- cond x ;;
      r' <- filterM cond r ;;
      Ret (if b then x :: r' else r')
  end.

(** [min(l, key=...)]: the first element whose key is smallest; [lt x best]
    is [key(x) < key(best)].  An empty list raises [ValueError]. *)
Fixpoint min_from {A : Type} (lt : A -> A -> bool) (best : A) (l : list A) : A :=
  match l with
  | [] => best
  | x :: r => if lt x best then min_from lt x r else min_from lt best r
  end.

Definition py_min {A : Type} (lt : A -> A -> bool) (l : list A) : result A :=
  match l with
  | [] => Raise ValueError
  | x :: r => Ret (min_from lt x r)
  end.

(** [l.index(x)] on a list of strings. *)
Fixpoint list_index (x : string) (l : list string) : result nat :=
  match l with
  | [] => Raise ValueError
  | y :: r => if String.eqb y x then Ret 0 else (n <- list_index x r ;; Ret (S n))
  end.

(** [s.split(sep)] for a one-character separator. *)
Fixpoint split (sep : ascii) (s : string) : list string :=
  match s with
  | EmptyString => [EmptyString]
  | String c r =>
      if Ascii.eqb c sep then EmptyString :: split sep r
      else match split sep r with
           | h :: t => String c h :: t
           | [] => [String c EmptyString]
           end
  end.

(** [int(s)]: surrounding white space, an optional sign, then decimal
    digits, single underscores allowed between digits.  A character is a
    code point below 256; of these [int] strips 9 to 13, 32, 0x85 and
    0xA0, and reads the digits 0 to 9.  Text with other code points is
    outside the model. *)
Definition is_space (c : ascii) : bool :=
  let n := nat_of_ascii c in
  ((9 <=? n) && (n <=? 13)) || (n =? 32) || (n =? 133) || (n =? 160).

Definition is_digit (c : ascii) : bool :=
  let n := nat_of_ascii c in (48 <=? n) && (n <=? 57).

Definition digit_value (c : ascii) : Z := Z.of_nat (nat_of_ascii c - 48).

Fixpoint lstrip (s : list ascii) : list ascii :=
  match s with
  | c :: r => if is_space c then lstrip r else s
  | [] => []
  end.

Definition strip (s : list ascii) : list ascii :=
  rev (lstrip (rev (lstrip s))).

Fixpoint digits_value (acc : Z) (after_digit : bool) (s : list ascii) : result Z :=
  match s with
  | [] => if after_digit then Ret acc else Raise ValueError
  | c :: r =>
      if is_digit c then digits_value (10 * acc + digit_value c)%Z true r
      else if Ascii.eqb c "_" && after_digit then digits_value acc false r
      else Raise ValueError
  end.

Definition py_int (s : string) : result Z :=
  match strip (list_ascii_of_string s) with
  | c :: r =>
      if Ascii.eqb c "-" then (z <- digits_value 0 false r ;; Ret (- z)%Z)
      else if Ascii.eqb c "+" then digits_value 0 false r
      else digits_value 0 false (c :: r)
  | [] => Raise ValueError
  end.

(** [str(z)] for an int. *)
Definition str_int (z : Z) : string := NilZero.string_of_int (Z.to_int z).

(** ** Clock times *)

(** [_date_to_num] *)
Definition _date_to_num (date : string) : result Z :=
  let date := split ":" date in
  h <- (d0 <- index date 0 ;; py_int d0) ;;
  m <- (d1 <- index date 1 ;; py_int d1) ;;
  Ret (h * 60 + m)%Z.

(** The number of decimal digits of an int. *)
Definition digits (z : Z) : nat := String.length (str_int (Z.abs z)).

(** The most digits an int may have when it is formatted ([ValueError]
    beyond): [sys.get_int_max_str_digits()], as CPython sets it. *)
Definition int_max_str_digits : nat := 4300.

(** ["{:02}".format(z)] *)
Definition format_02 (z : Z) : result string :=
  if int_max_str_digits <? digits z then Raise ValueError
  else Ret (if ((0 <=? z) && (z <? 10))%Z then String "0" (str_int z) else str_int z).

(** [_num_to_date] *)
Definition _num_to_date (num : Z) : result string :=
  hours <- format_02 (num / 60) ;;
  minutes <- format_02 (num mod 60) ;;
  Ret (hours ++ ":" ++ minutes ++ ":00")%string.

(** [_get_weight_from_time] *)
Definition _get_weight_from_time (departure arrival : string) : result Z :=
  num1 <- _date_to_num departure ;;
  num2 <- _date_to_num arrival ;;
  Ret (if (num1 <? num2)%Z then num2 - num1 else (num2 + 1440) - num1)%Z.

(** ** Numbers and weights *)

Inductive weight (num : Type) : Type :=
| Fin (x : num)
| Inf.

Arguments Fin {num} x.
Arguments Inf {num}.

(** What [float] and the weight functions return: a weight, or the float
    [nan], of which no comparison holds. *)
Inductive value (num : Type) : Type :=
| Weight (w : weight num)
| NaN.

Arguments Weight {num} w.
Arguments NaN {num}.

(** The operations the program applies to its numbers.  Time mode works on
    ints, price mode on floats.  [math.inf] and [nan] are kept apart as
    [Inf] and [NaN]: the carrier holds the ints and the floats [x] with
    [x < math.inf], and [float] returns a [value].  The builder never
    stores a [nan], so the entries of a matrix are weights. *)
Class PyNum (num : Type) : Type := {
  of_int : Z -> num;                 (* an int literal or int result *)
  num_eqb : num -> num -> bool;      (* x == y *)
  num_ltb : num -> num -> bool;      (* x < y *)
  num_add : num -> num -> num;       (* x + y *)
  num_floordiv : num -> Z -> num;    (* x // d, d a non-zero int literal *)
  num_mod : num -> Z -> num;         (* x % d, d a non-zero int literal *)
  num_round2 : num -> num;           (* round(x, 2) *)
  num_str : num -> string;           (* str(x) *)
  py_float : string -> result (value num)    (* float(s) *)
}.

(** A row of the csv file: [[id, origin, destination, price, departure,
    arrival]]. *)
Record schedule : Type := mkSchedule {
  ident : string;        (* schedule[0] *)
  origin : string;       (* schedule[1] *)
  destination : string;  (* schedule[2] *)
  price : string;        (* schedule[3] *)
  departure : string;    (* schedule[4] *)
  arrival : string       (* schedule[5] *)
}.

(** What [print] has written: the header text or a row. *)
Inductive printed : Type :=
| Text (s : string)
| Row (sch : schedule).

Section Model.
Context {num : Type} `{PyNum num}.

Definition graph : Type := list (list (weight num)).

(** [w != math.inf] *)
Definition is_finite (w : weight num) : bool :=
  match w with
  | Fin _ => true
  | Inf => false
  end.

(** [a < b] on weights. *)
Definition weight_ltb (a b : weight num) : bool :=
  match a, b with
  | Fin x, Fin y => num_ltb x y
  | Fin _, Inf => true
  | Inf, _ => false
  end.

(** [w in passed_vortices]: the weight [w] compared with the indices. *)
Definition weight_in (w : weight num) (passed_vortices : list nat) : bool :=
  match w with
  | Fin x => existsb (fun p => num_eqb x (of_int (Z.of_nat p))) passed_vortices
  | Inf => false
  end.

(** [str(w)] *)
Definition weight_str (w : weight num) : string :=
  match w with
  | Fin x => num_str x
  | Inf => "inf"%string
  end.

(** [str(x)] for what a weight function returns. *)
Definition value_str (x : value num) : string :=
  match x with
  | Weight w => weight_str w
  | NaN => "nan"%string
  end.

(** [_isclosevortex] *)
Definition _isclosevortex (graph : graph) (passed_vortices : list nat)
    (vortex : nat) : result bool :=
  row <- index graph vortex ;;
  let free_vort :=
    length (filter (fun iv => is_finite (snd iv) && negb (py_in (fst iv) passed_vortices))
                   (enumerate row)) in
  Ret (if (1 <? free_vort)
          || (Z.of_nat (length graph) - 2 <=? Z.of_nat (length passed_vortices))%Z
       then false else true).

(** [_check_vortex] *)
Definition _check_vortex (graph : graph) (passed_vortices : list nat)
    (vortex : nat) : result bool :=
  if py_in vortex passed_vortices then Ret false
  else
    row <- index graph vortex ;;
    let conn_vors :=
      map fst (filter (fun iv => is_finite (snd iv) && negb (weight_in (snd iv) passed_vortices))
                      (enumerate row)) in
    checked <- filterM (_isclosevortex graph passed_vortices) conn_vors ;;
    Ret (match checked with [] => true | _ :: _ => false end).

(** The list [current_row] built at the top of the solver's loop. *)
Definition current_row (graph : graph) (passed_vortices : list nat)
    (current_vortex : nat) : result (list (nat * weight num)) :=
  row <- index graph current_vortex ;;
  filterM (fun iw => _check_vortex graph passed_vortices (fst iw)) (enumerate row).

(** [key_for_min] compared with [<]. *)
Definition key_lt (x best : nat * weight num) : bool :=
  weight_ltb (snd x) (snd best).

(** The pair that [min] returns at a step. *)
Definition select (graph : graph) (passed_vortices : list nat)
    (current_vortex : nat) : result (nat * weight num) :=
  row <- current_row graph passed_vortices current_vortex ;;
  py_min key_lt row.

(** The [while True] loop of [_nearest_neighbor_algorithm]. *)
Fixpoint nna_loop (fuel : nat) (graph : graph) (current_vortex : nat)
    (passed_vortices : list nat) (route_weight : num)
  : option (result (list nat * num)) :=
  match fuel with
  | O => None
  | S fuel' =>
      match select graph passed_vortices current_vortex with
      | Raise e => Some (Raise e)
      | Ret (current_vortex, min_weight) =>
          let passed_vortices := passed_vortices ++ [current_vortex] in
          let route_weight :=
            num_add route_weight
                    (match min_weight with Fin x => x | Inf => of_int 0 end) in
          if length passed_vortices =? length graph
          then Some (Ret (passed_vortices, route_weight))
          else nna_loop fuel' graph current_vortex passed_vortices route_weight
      end
  end.

(** [_nearest_neighbor_algorithm] *)
Definition _nearest_neighbor_algorithm (fuel : nat) (graph : graph)
    (start_vortex : option nat) : option (result (list nat * num)) :=
  let current_vortex := match start_vortex with Some s => s | None => 0 end in
  nna_loop fuel graph current_vortex [current_vortex] (of_int 0).


(** ** The instance *)

(** A leg of the route: [[origin name, destination name, str(weight)]]. *)
Definition leg : Type := list string.

(** The attributes of a [Schedule] object.  [None] is Python's [None]; for
    [_is_exect_schedule], which [__init__] does not create, it is the absent
    attribute. *)
Record Schedule : Type := mkInstance {
  schedules : list schedule;
  stations : list string;
  _weight_matrix : option graph;
  _get_weight : option (schedule -> result (value num));
  _is_exact_schedule : option (schedule -> list leg -> result bool);
  _is_exect_schedule : option (schedule -> list leg -> result bool);
  _formatting_result : option (num -> string);
  _search_mode : option string
}.

(** [sorted(l)] on strings, which Python orders by code point. *)
Fixpoint insert_sorted (x : string) (l : list string) : list string :=
  match l with
  | [] => [x]
  | y :: r => if String.leb x y then x :: l else y :: insert_sorted x r
  end.

Definition sorted (l : list string) : list string :=
  fold_right insert_sorted [] l.

(** [_get_stations]: the sorted list of the set of all origins and
    destinations. *)
Definition _get_stations (schedules : list schedule) : list string :=
  sorted (nodup string_dec (map origin schedules ++ map destination schedules)).

(** [__init__], after the rows have been read from the file. *)
Definition __init__ (rows : list schedule) : Schedule :=
  {| schedules := rows;
     stations := _get_stations rows;
     _weight_matrix := None;
     _get_weight := None;
     _is_exact_schedule := None;
     _is_exect_schedule := None;
     _formatting_result := None;
     _search_mode := None |}.

(** [a == b] on lists of strings. *)
Definition leg_eqb (a b : leg) : bool :=
  if list_eq_dec string_dec a b then true else false.

(** The lambdas of [set_search_by]. *)
Definition price_get_weight (schedule : schedule) : result (value num) :=
  py_float (price schedule).

Definition price_is_exect_schedule (sch : schedule) (rout : list leg) : result bool :=
  w <- py_float (price sch) ;;
  rout0 <- index rout 0 ;;
  Ret (leg_eqb [origin sch; destination sch; value_str w] rout0).

Definition price_formatting_result (x : num) : string :=
  (num_str (num_round2 x) ++ "$")%string.

Definition time_get_weight (schedule : schedule) : result (value num) :=
  z <- _get_weight_from_time (departure schedule) (arrival schedule) ;;
  Ret (Weight (Fin (of_int z))).

Definition time_is_exect_schedule (schedule : schedule) (route : list leg) : result bool :=
  z <- _get_weight_from_time (departure schedule) (arrival schedule) ;;
  route0 <- index route 0 ;;
  Ret (leg_eqb [origin schedule; destination schedule; num_str (of_int z)] route0).

Definition time_formatting_result (x : num) : string :=
  (num_str (num_floordiv x 60) ++ " hours and "
   ++ num_str (num_mod x 64) ++ " minutes")%string.

(** [set_search_by]: the instance after the call and what the call did. *)
Definition set_search_by (param : string) (self : Schedule) : Schedule * result unit :=
  if String.eqb param "price" then
    ({| schedules := schedules self;
        stations := stations self;
        _weight_matrix := _weight_matrix self;
        _get_weight := Some price_get_weight;
        _is_exact_schedule := _is_exact_schedule self;
        _is_exect_schedule := Some price_is_exect_schedule;
        _formatting_result := Some price_formatting_result;
        _search_mode := Some param |}, Ret tt)
  else if String.eqb param "time" then
    ({| schedules := schedules self;
        stations := stations self;
        _weight_matrix := _weight_matrix self;
        _get_weight := Some time_get_weight;
        _is_exact_schedule := _is_exact_schedule self;
        _is_exect_schedule := Some time_is_exect_schedule;
        _formatting_result := Some time_formatting_result;
        _search_mode := Some param |}, Ret tt)
  else
    (self, Raise (Exception (param ++ " is incorrect search mode.")%string)).

(** ** The graph builder *)

(** [l[i] = x] *)
Fixpoint list_set {A : Type} (l : list A) (i : nat) (x : A) : result (list A) :=
  match l, i with
  | [], _ => Raise IndexError
  | _ :: r, O => Ret (x :: r)
  | y :: r, S i' => r' <- list_set r i' x ;; Ret (y :: r')
  end.

(** A call of an attribute that holds a function or [None]. *)
Definition call {A B : Type} (f : option (A -> result B)) (a : A) : result B :=
  match f with
  | Some f => f a
  | None => Raise TypeError
  end.

(** The body of the [for] loop of [_get_weight_matrix].  The test
    [weight < weight_matrix[i][j]] is false of a [nan], which leaves the
    cell as it is. *)
Definition weight_matrix_step (self : Schedule) (weight_matrix : graph)
    (schedule : schedule) : result graph :=
  i <- list_index (origin schedule) (stations self) ;;
  j <- list_index (destination schedule) (stations self) ;;
  weight <- call (_get_weight self) schedule ;;
  row <- index weight_matrix i ;;
  cell <- index row j ;;
  match weight with
  | Weight w =>
      if weight_ltb w cell
      then (row' <- list_set row j w ;; list_set weight_matrix i row')
      else Ret weight_matrix
  | NaN => Ret weight_matrix
  end.

Fixpoint weight_matrix_loop (self : Schedule) (weight_matrix : graph)
    (todo : list schedule) : result graph :=
  match todo with
  | [] => Ret weight_matrix
  | schedule :: todo' =>
      weight_matrix <- weight_matrix_step self weight_matrix schedule ;;
      weight_matrix_loop self weight_matrix todo'
  end.

(** [_get_weight_matrix] *)
Definition _get_weight_matrix (self : Schedule) : result graph :=
  let num_sts := length (stations self) in
  let weight_matrix := repeat (repeat Inf num_sts) num_sts in
  weight_matrix_loop self weight_matrix (schedules self).

(** ** The route printer *)

(** [a % b] on non-negative ints. *)
Definition py_mod (a b : nat) : result nat :=
  match b with
  | O => Raise ZeroDivisionError
  | S _ => Ret (a mod b)
  end.

(** [[f(x) for x in l]] where [f] may raise. *)
Fixpoint mapM {A B : Type} (f : A -> result B) (l : list A) : result (list B) :=
  match l with
  | [] => Ret []
  | x :: r => y <- f x ;; r' <- mapM f r ;; Ret (y :: r')
  end.

(** The leg appended to [route] for the pair [(i, p)] of the enumeration. *)
Definition route_leg (self : Schedule) (weight_matrix : graph) (seq : list nat)
    (num_sts : nat) (ip : nat * nat) : result leg :=
  let (i, p) := ip in
  from <- index (stations self) p ;;
  k <- py_mod (i + 1) num_sts ;;
  q <- index seq k ;;
  to <- index (stations self) q ;;
  row <- index weight_matrix p ;;
  w <- index row q ;;
  Ret [from; to; weight_str w].

(** The call [self._is_exect_schedule(schedule, route)]. *)
Definition is_exect (self : Schedule) (schedule : schedule) (route : list leg)
  : result bool :=
  match _is_exect_schedule self with
  | None => Raise AttributeError
  | Some f => f schedule route
  end.

(** The [for] loop over the rows inside the [while]: the first row that
    matches, if any. *)
Fixpoint first_exect (self : Schedule) (todo : list schedule) (route : list leg)
  : result (option schedule) :=
  match todo with
  | [] => Ret None
  | schedule :: todo' =>
      b <- is_exect self schedule route ;;
      if b then Ret (Some schedule) else first_exect self todo' route
  end.

(** The [while route] loop: the lines printed, and how the loop ended
    ([None]: it is still running when the fuel is used up). *)
Fixpoint print_loop (fuel : nat) (self : Schedule) (route : list leg)
  : list printed * option (result unit) :=
  match route with
  | [] => ([], Some (Ret tt))
  | _ :: route' =>
      match fuel with
      | O => ([], None)
      | S fuel' =>
          match first_exect self (schedules self) route with
          | Raise e => ([], Some (Raise e))
          | Ret (Some schedule) =>
              let (out, r) := print_loop fuel' self route' in
              (Row schedule :: out, r)
          | Ret None => print_loop fuel' self route
          end
      end
  end.

(** The text of the header line. *)
Definition header (search_mode : option string) (formatted : string) : string :=
  ("The " ++ String "034" "best" ++ String "034" " route by "
   ++ match search_mode with Some m => m | None => "None" end ++ " "
   ++ "for " ++ formatted ++ " through each station:")%string.

(** [find_the_best_route]: the instance after the call, the lines printed,
    and how the call ended. *)
Definition find_the_best_route (fuel : nat) (self : Schedule)
  : Schedule * list printed * option (result unit) :=
  match _get_weight_matrix self with
  | Raise e => (self, [], Some (Raise e))
  | Ret weight_matrix =>
      let self :=
        {| schedules := schedules self;
           stations := stations self;
           _weight_matrix := Some weight_matrix;
           _get_weight := _get_weight self;
           _is_exact_schedule := _is_exact_schedule self;
           _is_exect_schedule := _is_exect_schedule self;
           _formatting_result := _formatting_result self;
           _search_mode := _search_mode self |} in
      let num_sts := length (stations self) in
      match _nearest_neighbor_algorithm fuel weight_matrix (Some 1) with
      | None => (self, [], None)
      | Some (Raise e) => (self, [], Some (Raise e))
      | Some (Ret nna_result) =>
          match (route <- mapM (route_leg self weight_matrix (fst nna_result) num_sts)
                               (enumerate (fst nna_result)) ;;
                 match route with
                 | [] => Raise IndexError
                 | _ :: _ => Ret (removelast route)
                 end) with
          | Raise e => (self, [], Some (Raise e))
          | Ret route =>
              match _formatting_result self with
              | None => (self, [], Some (Raise TypeError))
              | Some formatting_result =>
                  let formatted := formatting_result (snd nna_result) in
                  let text := header (_search_mode self) formatted in
                  let (out, r) := print_loop fuel self route in
                  (self, Text text :: out, r)
              end
          end
      end
  end.

(** ** Notions used to state the properties *)

(** The entry [graph[a][b]]. *)
Definition edge (graph : graph) (a b : nat) : result (weight num) :=
  row <- index graph a ;; index row b.

(** Every row of the matrix is as long as the matrix. *)
Definition is_square (graph : graph) : bool :=
  forallb (fun row => length row =? length graph) graph.

(** Every entry off the diagonal is finite. *)
Definition fully_connected (graph : graph) : Prop :=
  forall a b, a < length graph -> b < length graph -> a <> b ->
    exists x, edge graph a b = Ret (Fin x).

(** The unvisited vertices that [w] still has a finite edge to. *)
Definition remaining (graph : graph) (passed_vortices : list nat) (w : nat) : list nat :=
  filter (fun i => match edge graph w i with
                   | Ret (Fin _) => negb (py_in i passed_vortices)
                   | _ => false
                   end)
         (seq 0 (length graph)).

(** [w] is an unvisited vertex with a finite edge from [v]. *)
Definition unvisited_neighbor (graph : graph) (passed_vortices : list nat)
    (v w : nat) : Prop :=
  w < length graph /\ py_in w passed_vortices = false
  /\ exists x, edge graph v w = Ret (Fin x).

(** The weights of the edges between consecutive vertices of [seq]. *)
Fixpoint path_edges (graph : graph) (seq : list nat) : result (list (weight num)) :=
  match seq with
  | a :: (b :: _) as rest =>
      w <- edge graph a b ;; ws <- path_edges graph rest ;; Ret (w :: ws)
  | _ => Ret []
  end.

(** The same with the edge from the last vertex back to the first. *)
Definition circuit_edges (graph : graph) (seq : list nat) : result (list (weight num)) :=
  match seq with
  | [] => Ret []
  | first :: _ =>
      ws <- path_edges graph seq ;;
      w <- edge graph (last seq first) first ;;
      Ret (ws ++ [w])
  end.

(** The sum of a list of numbers, added from the left starting at [0]. *)
Definition sum_weights (ws : list num) : num :=
  fold_left num_add ws (of_int 0).

(** The total of a list of edge weights as the solver keeps it: added from
    the left starting at [0], an infinite weight counting as [0]. *)
Definition total_of (ws : list (weight num)) : num :=
  fold_left (fun acc w => num_add acc (match w with Fin x => x | Inf => of_int 0 end))
            ws (of_int 0).

(** What the weight function returns, in the order of the rows, on the
    rows that go from station [i] to station [j]. *)
Definition pair_values (self : Schedule) (todo : list schedule) (i j : nat)
  : list (value num) :=
  flat_map (fun schedule =>
              match list_index (origin schedule) (stations self),
                    list_index (destination schedule) (stations self),
                    call (_get_weight self) schedule with
              | Ret i', Ret j', Ret x => if (i' =? i) && (j' =? j) then [x] else []
              | _, _, _ => []
              end) todo.

(** The weights among them: every value but [nan]. *)
Definition pair_weights (self : Schedule) (todo : list schedule) (i j : nat)
  : list (weight num) :=
  flat_map (fun x => match x with Weight w => [w] | NaN => [] end)
           (pair_values self todo i j).

(** The cell after a row of weight [w] has been looked at. *)
Definition keep_smaller (cell w : weight num) : weight num :=
  if weight_ltb w cell then w else cell.

(** [c] is a smallest element of [ws]. *)
Definition is_minimum (c : weight num) (ws : list (weight num)) : Prop :=
  In c ws /\ forall w, In w ws -> weight_ltb w c = false.

(** One of the two strategies of [set_search_by] is in place. *)
Definition selected (self : Schedule) : Prop :=
  (_get_weight self = Some price_get_weight
   /\ _is_exect_schedule self = Some price_is_exect_schedule)
  \/ (_get_weight self = Some time_get_weight
      /\ _is_exect_schedule self = Some time_is_exect_schedule).

(** Some row matches the first leg of [route] under the rule of the
    instance. *)
Definition leg_matched (self : Schedule) (route : list leg) : Prop :=
  exists schedule,
    In schedule (schedules self) /\ is_exect self schedule route = Ret true.


(** At every iteration of the printing loop the first remaining leg is
    matched. *)
Fixpoint all_legs_matched (self : Schedule) (route : list leg) : Prop :=
  match route with
  | [] => True
  | _ :: route' => leg_matched self route /\ all_legs_matched self route'
  end.

End Model.

Arguments graph num : clear implicits.
Arguments Schedule num : clear implicits.

(** ** Whole numbers *)

(** The numbers of time mode: Python ints with their exact arithmetic.
    [float] reads [nan], [inf] and the strings that spell a whole number,
    which this instance identifies with the int of that value; other
    literals are outside it. *)
#[export] Instance PyWhole : PyNum Z := {|
  of_int := fun z => z;
  num_eqb := Z.eqb;
  num_ltb := Z.ltb;
  num_add := Z.add;
  num_floordiv := Z.div;
  num_mod := Z.modulo;
  num_round2 := fun z => z;
  num_str := str_int;
  py_float := fun s =>
    if String.eqb s "nan" then Ret NaN
    else if String.eqb s "inf" then Ret (Weight Inf)
    else z <- py_int s ;; Ret (Weight (Fin z))
|}.

(** ** Sample inputs *)

(** Three stations, every pair connected. *)
Definition three_stations : graph Z :=
  [ [Inf;   Fin 1; Fin 2];
    [Fin 3; Inf;   Fin 4];
    [Fin 5; Fin 6; Inf  ] ]%Z.

(** Two stations without any connection. *)
Definition two_islands : graph Z :=
  [ [Inf; Inf];
    [Inf; Inf] ].

(** Four stations, every pair connected, all weights distinct. *)
Definition four_stations : graph Z :=
  [ [Inf;    Fin 10; Fin 20; Fin 30];
    [Fin 11; Inf;    Fin 21; Fin 31];
    [Fin 12; Fin 22; Inf;    Fin 32];
    [Fin 13; Fin 23; Fin 33; Inf   ] ]%Z.

(** Five stations; station 1 has no edge back to station 0, and station 3
    has edges to stations 0 and 4 only. *)
Definition five_stations : graph Z :=
  [ [Inf;    Fin 10; Fin 20; Fin 30; Fin 40];
    [Inf;    Inf;    Fin 21; Fin 31; Fin 41];
    [Fin 12; Fin 22; Inf;    Fin 32; Fin 42];
    [Fin 13; Inf;    Inf;    Inf;    Fin 43];
    [Fin 14; Fin 24; Fin 34; Fin 44; Inf   ] ]%Z.

(** Four stations on a ring 1 -> 2 -> 3 -> 1, each with an edge back to
    station 0. *)
Definition four_ring : graph Z :=
  [ [Inf;   Fin 5; Fin 6; Fin 7];
    [Fin 8; Inf;   Fin 9; Inf  ];
    [Fin 8; Inf;   Inf;   Fin 9];
    [Fin 8; Fin 9; Inf;   Inf  ] ]%Z.

(** The rows of a small timetable; two of them go from A to B. *)
Definition timetable : list schedule :=
  [ mkSchedule "1" "A" "B" "10" "08:00" "08:30";
    mkSchedule "2" "B" "C" "5" "08:30" "09:00";
    mkSchedule "3" "C" "A" "7" "09:00" "09:30";
    mkSchedule "4" "A" "B" "12" "10:00" "10:20" ]%string.

(** Two rows that leave station A without a way back to it. *)
Definition one_way : list schedule :=
  [ mkSchedule "1" "A" "B" "10" "08:00" "08:30";
    mkSchedule "2" "B" "C" "5" "08:30" "09:00" ]%string.

(** The instance for that timetable with time mode selected. *)
Definition by_time : Schedule Z :=
  fst (set_search_by "time" (__init__ timetable)).

(** A single row, priced [nan], and the instance for it with price mode
    selected. *)
Definition nan_price : list schedule :=
  [ mkSchedule "1" "A" "B" "nan" "08:00" "08:30" ]%string.

Definition by_price_nan : Schedule Z :=
  fst (set_search_by "price" (__init__ nan_price)).

(** ** The program *)

(** The block under [if __name__ == '__main__'], once the rows have been
    read: the lines printed and how the program ended. *)
Definition main {num : Type} `{PyNum num} (fuel : nat) (rows : list schedule)
  : list printed * option (result unit) :=
  let instance : Schedule num := __init__ rows in
  match set_search_by "price" instance with
  | (_, Raise e) => ([], Some (Raise e))
  | (instance, Ret _) =>
      match find_the_best_route fuel instance with
      | (instance, out1, Some (Ret _)) =>
          match set_search_by "time" instance with
          | (_, Raise e) => (out1, Some (Raise e))
          | (instance, Ret _) =>
              let '(_, out2, r) := find_the_best_route fuel instance in
              (out1 ++ out2, r)
          end
      | (_, out1, r) => (out1, r)
      end
  end.

(** [a] is strictly below [b] in the order of [sorted]. *)
Definition station_lt (a b : string) : Prop := String.ltb a b = true.

(** The instance with its matrix forgotten. *)
Definition forget_matrix {num : Type} (self : Schedule num) : Schedule num :=
  {| schedules := schedules self;
     stations := stations self;
     _weight_matrix := None;
     _get_weight := _get_weight self;
     _is_exact_schedule := _is_exact_schedule self;
     _is_exect_schedule := _is_exect_schedule self;
     _formatting_result := _formatting_result self;
     _search_mode := _search_mode self |}.


(** * Properties *)

Unset Implicit Arguments.

(** ** Results and built-ins *)

Lemma bind_Ret_inv {A B : Type} (c : result A) (k : A -> result B) (b : B) :
  bind c k = Ret b -> exists a, c = Ret a /\ k a = Ret b.
Proof.
  destruct c as [a|e]; simpl; intros E; [eauto | discriminate].
Qed.

Ltac inv_bind E :=
  let a := fresh "a" in
  let Ea := fresh "E" a in
  apply bind_Ret_inv in E; destruct E as (a & Ea & E).

Lemma index_Ret {A : Type} (l : list A) (i : nat) (x : A) :
  index l i = Ret x <-> nth_error l i = Some x.
Proof.
  unfold index. destruct (nth_error l i); split; congruence.
Qed.

Lemma index_lt {A : Type} (l : list A) (i : nat) (x : A) :
  index l i = Ret x -> i < length l.
Proof.
  rewrite index_Ret. intros E. apply nth_error_Some. congruence.
Qed.

Lemma index_defined {A : Type} (l : list A) (i : nat) :
  i < length l -> exists x, index l i = Ret x.
Proof.
  intros L. unfold index. destruct (nth_error l i) eqn:E; eauto.
  apply nth_error_None in E. lia.
Qed.

Lemma py_in_true (i : nat) (l : list nat) : py_in i l = true <-> In i l.
Proof.
  unfold py_in. rewrite existsb_exists. split.
  - intros (x & I & E). apply Nat.eqb_eq in E. now subst.
  - intros I. exists i. split; [assumption | apply Nat.eqb_refl].
Qed.

Lemma py_in_false (i : nat) (l : list nat) : py_in i l = false <-> ~ In i l.
Proof.
  rewrite <- py_in_true. destruct (py_in i l); split; congruence.
Qed.

Lemma in_combine_seq {A : Type} (l : list A) (k i : nat) (x : A) :
  In (i, x) (combine (seq k (length l)) l) <-> k <= i /\ nth_error l (i - k) = Some x.
Proof.
  revert k. induction l as [|y l IH]; intros k; simpl.
  - split; [tauto | intros [_ E]]. destruct (i - k); discriminate.
  - rewrite IH. split.
    + intros [E | [L E]].
      * inversion E; subst. rewrite Nat.sub_diag. auto.
      * split; [lia|]. replace (i - k) with (S (i - S k)) by lia. exact E.
    + intros [L E]. destruct (i - k) as [|n] eqn:D.
      * left. simpl in E. inversion E. f_equal. lia.
      * right. split; [lia|]. replace (i - S k) with n by lia. exact E.
Qed.

Lemma in_enumerate {A : Type} (l : list A) (i : nat) (x : A) :
  In (i, x) (enumerate l) <-> nth_error l i = Some x.
Proof.
  unfold enumerate. rewrite in_combine_seq, Nat.sub_0_r. intuition lia.
Qed.

Lemma filterM_In {A : Type} (cond : A -> result bool) (l l' : list A) :
  filterM cond l = Ret l' ->
  forall x, In x l' <-> In x l /\ cond x = Ret true.
Proof.
  revert l'. induction l as [|y l IH]; simpl; intros l' E x.
  - inversion E. simpl. tauto.
  - inv_bind E. inv_bind E. inversion E; subst l'; clear E.
    specialize (IH _ Ea0 x). destruct a.
    + simpl. rewrite IH. split.
      * intros [-> | [I C]]; auto.
      * intros [[-> | I] C]; auto.
    + rewrite IH. split.
      * intros [I C]; auto.
      * intros [[-> | I] C]; [congruence | auto].
Qed.

Lemma filterM_pure {A : Type} (cond : A -> result bool) (f : A -> bool) (l : list A) :
  (forall x, In x l -> cond x = Ret (f x)) -> filterM cond l = Ret (filter f l).
Proof.
  induction l as [|y l IH]; simpl; intros C; [reflexivity|].
  rewrite (C y) by auto. simpl. rewrite IH by auto. simpl.
  now destruct (f y).
Qed.

Lemma min_from_In {A : Type} (lt : A -> A -> bool) (l : list A) (best : A) :
  In (min_from lt best l) (best :: l).
Proof.
  revert best. induction l as [|x l IH]; intros best; simpl; [auto|].
  destruct (lt x best); [specialize (IH x) | specialize (IH best)];
    simpl in IH; tauto.
Qed.

Lemma py_min_In {A : Type} (lt : A -> A -> bool) (l : list A) (x : A) :
  py_min lt l = Ret x -> In x l.
Proof.
  destruct l as [|y l]; simpl; intros E; [discriminate|].
  inversion E. apply min_from_In.
Qed.

(** ** The weight of a connection in time mode *)

(** C2, as the code has it: from 23:50 to 00:10 the weight is 20; a
    departure and an arrival at the same minute, 09:00 and 09:00, weigh a
    full day, 1440. *)
Theorem get_weight_from_time_examples :
  _get_weight_from_time "23:50" "00:10" = Ret 20%Z
  /\ _get_weight_from_time "09:00" "09:00" = Ret 1440%Z.
Proof.
  split; reflexivity.
Qed.

(** C2 as stated fails: the weight of 09:00 to 09:00 is not 0. *)
Lemma get_weight_from_time_same_instant_not_0 :
  _get_weight_from_time "09:00" "09:00" <> Ret 0%Z.
Proof.
  vm_compute. discriminate.
Qed.

(** ** The formatter of time mode *)

(** C7 at a total of 60 minutes: the text printed is "1 hours and 60
    minutes", the minutes being taken modulo 64, where a remainder modulo
    60 gives "1 hours and 0 minutes". *)
Theorem time_formatting_result_60 :
  time_formatting_result 60%Z = "1 hours and 60 minutes"%string
  /\ time_formatting_result 60%Z
     <> (str_int (60 / 60) ++ " hours and " ++ str_int (60 mod 60) ++ " minutes")%string.
Proof.
  split; [reflexivity | vm_compute; discriminate].
Qed.

Section Properties.
Context {num : Type} `{PyNum num}.

(** ** Selecting the strategy *)

(** C8: a name other than "price" and "time" makes [set_search_by] raise
    at once, and the instance, with its weight function, equality rule,
    formatter and search mode, is the one it was before the call. *)
Theorem set_search_by_unknown (param : string) (self : Schedule num) :
  param <> "price"%string -> param <> "time"%string ->
  set_search_by param self
  = (self, Raise (Exception (param ++ " is incorrect search mode.")%string))
  /\ _get_weight (fst (set_search_by param self)) = _get_weight self
  /\ _is_exect_schedule (fst (set_search_by param self)) = _is_exect_schedule self
  /\ _formatting_result (fst (set_search_by param self)) = _formatting_result self
  /\ _search_mode (fst (set_search_by param self)) = _search_mode self.
Proof.
  intros Np Nt. unfold set_search_by.
  destruct (String.eqb_spec param "price"); [contradiction|].
  destruct (String.eqb_spec param "time"); [contradiction|].
  simpl. auto.
Qed.

(** ** The feasibility filter *)

Lemma filterM_defined {A : Type} (cond : A -> result bool) (l : list A) :
  (forall x, In x l -> exists b, cond x = Ret b) -> exists l', filterM cond l = Ret l'.
Proof.
  induction l as [|y l IH]; simpl; intros C; [eauto|].
  destruct (C y) as [b ->]; [auto|]. destruct IH as [l' ->]; [auto|].
  simpl. eauto.
Qed.

Lemma filter_combine_seq {A : Type} (P : nat * A -> bool) (l : list A) (k : nat) :
  map fst (filter P (combine (seq k (length l)) l))
  = filter (fun i => match nth_error l (i - k) with
                     | Some x => P (i, x)
                     | None => false
                     end) (seq k (length l)).
Proof.
  revert k. induction l as [|y l IH]; intros k; simpl; [reflexivity|].
  rewrite Nat.sub_diag. simpl.
  assert (R : filter (fun i => match nth_error (y :: l) (i - k) with
                               | Some x => P (i, x)
                               | None => false
                               end) (seq (S k) (length l))
              = filter (fun i => match nth_error l (i - S k) with
                                 | Some x => P (i, x)
                                 | None => false
                                 end) (seq (S k) (length l))).
  { apply filter_ext_in. intros i I. apply in_seq in I.
    replace (i - k) with (S (i - S k)) by lia. reflexivity. }
  rewrite R, <- IH. now destruct (P (k, y)).
Qed.

Lemma filter_enumerate {A : Type} (P : nat * A -> bool) (l : list A) :
  map fst (filter P (enumerate l))
  = filter (fun i => match nth_error l i with
                     | Some x => P (i, x)
                     | None => false
                     end) (seq 0 (length l)).
Proof.
  unfold enumerate. rewrite filter_combine_seq. apply filter_ext.
  intros i. now rewrite Nat.sub_0_r.
Qed.

Lemma is_square_row (graph : graph num) (w : nat) (row : list (weight num)) :
  is_square graph = true -> index graph w = Ret row -> length row = length graph.
Proof.
  unfold is_square. rewrite forallb_forall. intros S E.
  apply index_Ret, nth_error_In, S in E. now apply Nat.eqb_eq.
Qed.

Lemma edge_index (graph : graph num) (w i : nat) (row : list (weight num)) :
  index graph w = Ret row -> edge graph w i = index row i.
Proof.
  unfold edge. now intros ->.
Qed.

(** The count [free_vort] is the number of vertices that remain for [w]. *)
Lemma free_vort_remaining (graph : graph num) (passed_vortices : list nat)
    (w : nat) (row : list (weight num)) :
  is_square graph = true -> index graph w = Ret row ->
  length (filter (fun iv => is_finite (snd iv) && negb (py_in (fst iv) passed_vortices))
                 (enumerate row))
  = length (remaining graph passed_vortices w).
Proof.
  intros S E. rewrite <- (length_map fst), filter_enumerate.
  unfold remaining. rewrite (is_square_row _ _ _ S E). f_equal.
  apply filter_ext. intros i. rewrite (edge_index _ _ _ _ E). unfold index.
  destruct (nth_error row i) as [[x|]|]; reflexivity.
Qed.

Lemma isclosevortex_square (graph : graph num) (passed_vortices : list nat) (w : nat) :
  is_square graph = true -> w < length graph ->
  _isclosevortex graph passed_vortices w
  = Ret ((length (remaining graph passed_vortices w) <=? 1)
         && (length passed_vortices + 2 <? length graph)).
Proof.
  intros S L. unfold _isclosevortex.
  destruct (index_defined graph _ L) as [row E]. rewrite E. simpl.
  rewrite (free_vort_remaining _ _ _ _ S E). f_equal.
  destruct (Nat.ltb_spec 1 (length (remaining graph passed_vortices w)));
    destruct (Z.leb_spec (Z.of_nat (length graph) - 2) (Z.of_nat (length passed_vortices)));
    destruct (Nat.leb_spec (length (remaining graph passed_vortices w)) 1);
    destruct (Nat.ltb_spec (length passed_vortices + 2) (length graph));
    simpl; try reflexivity; lia.
Qed.

(** What the filter computes on a square matrix. *)
Lemma check_vortex_square (graph : graph num) (passed_vortices : list nat) (v : nat) :
  is_square graph = true -> v < length graph -> py_in v passed_vortices = false ->
  exists b,
    _check_vortex graph passed_vortices v = Ret b
    /\ (b = false <->
        exists w x,
          edge graph v w = Ret (Fin x)
          /\ weight_in (Fin x) passed_vortices = false
          /\ length (remaining graph passed_vortices w) <= 1
          /\ length passed_vortices + 2 < length graph).
Proof.
  intros S L U. unfold _check_vortex. rewrite U.
  destruct (index_defined graph _ L) as [row E]. rewrite E. simpl.
  set (conn_vors := map fst (filter _ (enumerate row))).
  assert (C : forall w, In w conn_vors <->
                exists x, edge graph v w = Ret (Fin x)
                          /\ weight_in (Fin x) passed_vortices = false).
  { intros w. unfold conn_vors. rewrite in_map_iff. split.
    - intros ([i vor] & <- & I). apply filter_In in I. destruct I as [I P].
      apply in_enumerate in I. simpl in *. apply andb_prop in P. destruct P as [F W].
      destruct vor as [x|]; [|discriminate]. exists x.
      rewrite (edge_index _ _ _ _ E), index_Ret. split; [assumption|].
      now apply negb_true_iff in W.
    - intros (x & Ex & W). exists (w, Fin x). split; [reflexivity|].
      apply filter_In. rewrite in_enumerate, <- index_Ret, <- (edge_index _ _ _ _ E).
      split; [assumption|]. simpl in *. now rewrite W. }
  assert (B : forall w, In w conn_vors -> w < length graph).
  { intros w I. apply C in I. destruct I as (x & Ex & _).
    rewrite (edge_index _ _ _ _ E) in Ex. apply index_lt in Ex.
    now rewrite (is_square_row _ _ _ S E) in Ex. }
  rewrite (filterM_pure _ (fun w => (length (remaining graph passed_vortices w) <=? 1)
                                    && (length passed_vortices + 2 <? length graph)))
    by (intros w I; apply isclosevortex_square; auto).
  simpl. eexists. split; [reflexivity|].
  destruct (filter _ conn_vors) as [|w checked] eqn:F.
  - split; [discriminate|]. intros (w & x & Ex & W & R & G). exfalso.
    assert (I : In w (filter (fun w => (length (remaining graph passed_vortices w) <=? 1)
                                      && (length passed_vortices + 2 <? length graph))
                             conn_vors)).
    { apply filter_In. split; [apply C; eauto|].
      apply andb_true_intro. split; [now apply Nat.leb_le | now apply Nat.ltb_lt]. }
    rewrite F in I. destruct I.
  - split; [intros _ | reflexivity].
    assert (I : In w (w :: checked)) by (left; reflexivity).
    rewrite <- F in I. apply filter_In in I. destruct I as [I P].
    apply C in I. destruct I as (x & Ex & W). apply andb_prop in P.
    destruct P as [R G]. apply Nat.leb_le in R. apply Nat.ltb_lt in G.
    exists w, x. auto.
Qed.

(** C1, as the code has it.  Take a square matrix, visited vertices and an
    unvisited vertex [v].  The filter looks the weight of an edge up among
    the visited vertices where it means the edge's end; suppose the two
    agree at the ends that count: at each [w] with a finite edge from [v]
    and at most one unvisited vertex left to go to, while fewer than N-2
    vertices are visited (no agreement is asked anywhere else, and none at
    all in the last two steps).  Then the filter rejects [v] exactly when
    some unvisited vertex [w] with a finite edge from [v] has at most one
    unvisited vertex left to go to while fewer than N-2 vertices are
    visited; otherwise it accepts [v]. *)
Theorem check_vortex_rejects_iff (graph : graph num) (passed_vortices : list nat)
    (v : nat) :
  is_square graph = true -> v < length graph -> py_in v passed_vortices = false ->
  (forall w x, edge graph v w = Ret (Fin x) ->
     length (remaining graph passed_vortices w) <= 1 ->
     length passed_vortices + 2 < length graph ->
     weight_in (Fin x) passed_vortices = py_in w passed_vortices) ->
  (_check_vortex graph passed_vortices v = Ret false <->
   exists w, unvisited_neighbor graph passed_vortices v w
             /\ length (remaining graph passed_vortices w) <= 1
             /\ length passed_vortices + 2 < length graph)
  /\ (_check_vortex graph passed_vortices v = Ret true <->
      ~ exists w, unvisited_neighbor graph passed_vortices v w
                  /\ length (remaining graph passed_vortices w) <= 1
                  /\ length passed_vortices + 2 < length graph).
Proof.
  intros S L U A.
  destruct (check_vortex_square graph passed_vortices v S L U) as (b & -> & B).
  assert (Q : (exists w x, edge graph v w = Ret (Fin x)
                 /\ weight_in (Fin x) passed_vortices = false
                 /\ length (remaining graph passed_vortices w) <= 1
                 /\ length passed_vortices + 2 < length graph)
              <-> exists w, unvisited_neighbor graph passed_vortices v w
                    /\ length (remaining graph passed_vortices w) <= 1
                    /\ length passed_vortices + 2 < length graph).
  { split.
    - intros (w & x & Ex & W & R & G). exists w. split; [|auto].
      split; [|split; [|eauto]].
      + unfold edge in Ex. inv_bind Ex. apply index_lt in Ex.
        now rewrite (is_square_row _ _ _ S Ea) in Ex.
      + now rewrite <- (A w x Ex R G).
    - intros (w & (Lw & Uw & x & Ex) & R & G). exists w, x.
      rewrite (A w x Ex R G). auto. }
  rewrite <- Q, <- B. split.
  - split; congruence.
  - destruct b; split; intros; congruence.
Qed.

(** ** The candidates of a step *)

Lemma current_row_In (graph : graph num) (passed_vortices : list nat)
    (current_vortex : nat) (row : list (nat * weight num)) (i : nat) (w : weight num) :
  current_row graph passed_vortices current_vortex = Ret row ->
  In (i, w) row ->
  py_in i passed_vortices = false
  /\ edge graph current_vortex i = Ret w
  /\ _check_vortex graph passed_vortices i = Ret true.
Proof.
  intros E I. unfold current_row in E. inv_bind E.
  apply (filterM_In _ _ _ E) in I. simpl in I. destruct I as [I C].
  apply in_enumerate in I. split; [|split]; trivial.
  - unfold _check_vortex in C.
    destruct (py_in i passed_vortices); [discriminate | reflexivity].
  - unfold edge. rewrite Ea. simpl. now apply index_Ret.
Qed.

(** C4, as the code has it: every candidate of a step is an unvisited
    vertex that the feasibility filter accepts, listed with the matrix
    entry from the current vertex (finite or not); and when no candidate is
    left the solver raises [ValueError] at that step. *)
Theorem candidates_unvisited_accepted (graph : graph num)
    (passed_vortices : list nat) (current_vortex : nat)
    (row : list (nat * weight num)) :
  current_row graph passed_vortices current_vortex = Ret row ->
  (forall i w, In (i, w) row ->
     py_in i passed_vortices = false
     /\ edge graph current_vortex i = Ret w
     /\ _check_vortex graph passed_vortices i = Ret true)
  /\ (row = [] ->
      forall fuel route_weight,
        nna_loop (S fuel) graph current_vortex passed_vortices route_weight
        = Some (Raise ValueError)).
Proof.
  intros E. split.
  - intros i w. now apply current_row_In.
  - intros -> fuel route_weight. simpl. unfold select. rewrite E. reflexivity.
Qed.

(** ** The visiting sequence *)

Lemma check_vortex_true_lt (graph : graph num) (passed_vortices : list nat) (v : nat) :
  _check_vortex graph passed_vortices v = Ret true -> v < length graph.
Proof.
  unfold _check_vortex. destruct (py_in v passed_vortices); [discriminate|].
  intros E. inv_bind E. now apply index_lt in Ea.
Qed.

Lemma select_sound (graph : graph num) (passed_vortices : list nat)
    (current_vortex v : nat) (min_weight : weight num) :
  select graph passed_vortices current_vortex = Ret (v, min_weight) ->
  current_vortex < length graph /\ v < length graph
  /\ py_in v passed_vortices = false
  /\ edge graph current_vortex v = Ret min_weight.
Proof.
  unfold select. intros E. inv_bind E. apply py_min_In in E.
  destruct (current_row_In _ _ _ _ _ _ Ea E) as (U & Ed & C).
  apply check_vortex_true_lt in C. repeat split; trivial.
  unfold edge in Ed. inv_bind Ed. now apply index_lt in Ea0.
Qed.

Lemma passed_append (graph : graph num) (passed_vortices : list nat)
    (current_vortex v : nat) :
  NoDup passed_vortices ->
  (forall i, In i passed_vortices -> i = current_vortex \/ i < length graph) ->
  current_vortex < length graph -> v < length graph ->
  py_in v passed_vortices = false ->
  NoDup (passed_vortices ++ [v])
  /\ (forall i, In i (passed_vortices ++ [v]) -> i < length graph)
  /\ length (passed_vortices ++ [v]) <= length graph.
Proof.
  intros ND B Lc Lv U. apply py_in_false in U.
  assert (ND' : NoDup (passed_vortices ++ [v])).
  { apply NoDup_app; trivial.
    - constructor; [simpl; tauto | constructor].
    - intros a Ia [<- | []]. contradiction. }
  assert (B' : forall i, In i (passed_vortices ++ [v]) -> i < length graph).
  { intros i I. apply in_app_or in I. destruct I as [I | [<- | []]]; trivial.
    destruct (B i I); subst; trivial. }
  split; [|split]; trivial.
  apply Nat.le_trans with (length (seq 0 (length graph)));
    [|rewrite length_seq; lia].
  apply NoDup_incl_length; trivial.
  intros i I. apply in_seq. specialize (B' i I). lia.
Qed.

Lemma nna_loop_sequence (graph : graph num) :
  forall fuel current_vortex passed_vortices route_weight seq total,
    nna_loop fuel graph current_vortex passed_vortices route_weight
    = Some (Ret (seq, total)) ->
    NoDup passed_vortices ->
    (forall i, In i passed_vortices -> i = current_vortex \/ i < length graph) ->
    (exists rest, seq = passed_vortices ++ rest)
    /\ NoDup seq
    /\ (forall i, In i seq -> i < length graph)
    /\ length seq = length graph.
Proof.
  induction fuel as [|fuel IH]; intros cur passed rw seq total E ND B;
    simpl in E; [discriminate|].
  destruct (select graph passed cur) as [[v mw]|e] eqn:Sel; [|discriminate].
  apply select_sound in Sel. destruct Sel as (Lc & Lv & U & _).
  destruct (passed_append graph passed cur v ND B Lc Lv U) as (ND' & B' & _).
  destruct (Nat.eqb_spec (length (passed ++ [v])) (length graph)) as [L|L].
  - inversion E; subst. split; [exists [v]; reflexivity | auto].
  - apply IH in E; trivial.
    + destruct E as ((rest & ->) & R). split; [|exact R].
      exists (v :: rest). now rewrite <- app_assoc.
    + intros i I. right. auto.
Qed.

Lemma solver_sequence (fuel : nat) (graph : graph num) (start_vortex : option nat)
    (seq : list nat) (total : num) :
  _nearest_neighbor_algorithm fuel graph start_vortex = Some (Ret (seq, total)) ->
  exists rest,
    seq = match start_vortex with Some s => s | None => 0 end :: rest
    /\ NoDup seq
    /\ (forall i, In i seq -> i < length graph)
    /\ length seq = length graph.
Proof.
  unfold _nearest_neighbor_algorithm. intros E.
  apply nna_loop_sequence in E.
  - destruct E as ((rest & ->) & R). exists rest. split; [reflexivity | exact R].
  - constructor; [simpl; tauto | constructor].
  - intros i [<- | []]. now left.
Qed.

(** C6: when the solver returns, the visiting sequence has exactly N
    entries, begins with the start index (0 when none is given), has no
    repeated vertex and is a permutation of the indices 0..N-1. *)
Theorem solver_returns_permutation (fuel : nat) (graph : graph num)
    (start_vortex : option nat) (seq : list nat) (total : num) :
  _nearest_neighbor_algorithm fuel graph start_vortex = Some (Ret (seq, total)) ->
  length seq = length graph
  /\ hd_error seq = Some (match start_vortex with Some s => s | None => 0 end)
  /\ NoDup seq
  /\ Permutation seq (List.seq 0 (length graph)).
Proof.
  unfold _nearest_neighbor_algorithm. intros E.
  apply nna_loop_sequence in E.
  - destruct E as ((rest & ->) & ND & B & L). repeat split; trivial.
    apply NoDup_Permutation_bis; trivial.
    + rewrite length_seq. lia.
    + intros i I. apply in_seq. specialize (B i I). lia.
  - constructor; [simpl; tauto | constructor].
  - intros i [<- | []]. now left.
Qed.

(** ** The total of the route *)

Lemma path_edges_snoc (graph : graph num) (v : nat) (min_weight : weight num) :
  forall passed_vortices ws,
    passed_vortices <> [] ->
    path_edges graph passed_vortices = Ret ws ->
    edge graph (last passed_vortices 0) v = Ret min_weight ->
    path_edges graph (passed_vortices ++ [v]) = Ret (ws ++ [min_weight]).
Proof.
  induction passed_vortices as [|u l IH]; intros ws N P Ed; [congruence|].
  destruct l as [|b l].
  - simpl in *. inversion P. now rewrite Ed.
  - change (path_edges graph (u :: b :: l))
      with (w <- edge graph u b ;; ws <- path_edges graph (b :: l) ;; Ret (w :: ws)) in P.
    inv_bind P. inv_bind P. inversion P; subst ws.
    change (path_edges graph ((u :: b :: l) ++ [v]))
      with (w <- edge graph u b ;; ws <- path_edges graph ((b :: l) ++ [v]) ;;
            Ret (w :: ws)).
    rewrite Ea, (IH a0); trivial; discriminate.
Qed.

Lemma nna_loop_total (graph : graph num) :
  forall fuel current_vortex passed_vortices route_weight seq total ws,
    nna_loop fuel graph current_vortex passed_vortices route_weight
    = Some (Ret (seq, total)) ->
    passed_vortices <> [] -> last passed_vortices 0 = current_vortex ->
    path_edges graph passed_vortices = Ret ws -> route_weight = total_of ws ->
    exists ws', path_edges graph seq = Ret ws' /\ total = total_of ws'.
Proof.
  induction fuel as [|fuel IH]; intros cur passed rw seq total ws E N La P R;
    simpl in E; [discriminate|].
  destruct (select graph passed cur) as [[v mw]|e] eqn:Sel; [|discriminate].
  apply select_sound in Sel. destruct Sel as (_ & _ & _ & Ed).
  rewrite <- La in Ed. pose proof (path_edges_snoc graph v mw passed ws N P Ed) as P'.
  assert (R' : num_add rw (match mw with Fin x => x | Inf => of_int 0 end)
               = total_of (ws ++ [mw])).
  { unfold total_of. rewrite fold_left_app. simpl. now rewrite R. }
  destruct (length (passed ++ [v]) =? length graph).
  - inversion E; subst seq total. eauto.
  - apply (IH _ _ _ _ _ (ws ++ [mw]) E); trivial.
    + destruct passed; discriminate.
    + apply last_last.
Qed.

(** The total that the solver returns is the total of the edges between
    consecutive vertices of the sequence; the edge from the last vertex
    back to the first is not in it. *)
Lemma solver_total (fuel : nat) (graph : graph num) (start_vortex : option nat)
    (seq : list nat) (total : num) :
  _nearest_neighbor_algorithm fuel graph start_vortex = Some (Ret (seq, total)) ->
  exists ws, path_edges graph seq = Ret ws /\ total = total_of ws.
Proof.
  unfold _nearest_neighbor_algorithm. intros E.
  apply (nna_loop_total _ _ _ _ _ _ _ [] E); try reflexivity. discriminate.
Qed.

(** ** Termination of the solver *)

Lemma nna_loop_fuel (graph : graph num) :
  forall fuel fuel' current_vortex passed_vortices route_weight r,
    nna_loop fuel graph current_vortex passed_vortices route_weight = Some r ->
    fuel <= fuel' ->
    nna_loop fuel' graph current_vortex passed_vortices route_weight = Some r.
Proof.
  induction fuel as [|fuel IH]; intros fuel' cur passed rw r E L;
    simpl in E; [discriminate|].
  destruct fuel' as [|fuel']; [lia|]. simpl.
  destruct (select graph passed cur) as [[v mw]|e]; trivial.
  destruct (length (passed ++ [v]) =? length graph); trivial.
  apply IH with (fuel' := fuel') in E; [exact E | lia].
Qed.

(** The loop ends, by a [return] or by an exception, within N-1 iterations
    (one iteration when N < 2). *)
Lemma nna_loop_terminates (graph : graph num) :
  forall fuel current_vortex passed_vortices route_weight,
    NoDup passed_vortices ->
    (forall i, In i passed_vortices -> i = current_vortex \/ i < length graph) ->
    1 <= fuel -> length graph <= fuel + length passed_vortices ->
    exists r, nna_loop fuel graph current_vortex passed_vortices route_weight = Some r.
Proof.
  induction fuel as [|fuel IH]; intros cur passed rw ND B F L; [lia|]. simpl.
  destruct (select graph passed cur) as [[v mw]|e] eqn:Sel; [|eauto].
  apply select_sound in Sel. destruct Sel as (Lc & Lv & U & _).
  destruct (passed_append graph passed cur v ND B Lc Lv U) as (ND' & B' & L').
  destruct (Nat.eqb_spec (length (passed ++ [v])) (length graph)) as [Eq|Ne]; [eauto|].
  rewrite length_app in *. simpl in *. apply IH; trivial.
  - intros i I. right. auto.
  - lia.
  - rewrite length_app. simpl. lia.
Qed.

Lemma solver_terminates (graph : graph num) (start_vortex : option nat) :
  exists r, forall fuel,
    1 <= fuel -> length graph <= S fuel ->
    _nearest_neighbor_algorithm fuel graph start_vortex = Some r.
Proof.
  unfold _nearest_neighbor_algorithm.
  set (start := match start_vortex with Some s => s | None => 0 end).
  destruct (nna_loop_terminates graph (Nat.max 1 (length graph - 1)) start [start]
              (of_int 0)) as [r E].
  - constructor; [simpl; tauto | constructor].
  - intros i [<- | []]. now left.
  - apply Nat.le_max_l.
  - pose proof (Nat.le_max_r 1 (length graph - 1)). simpl length. lia.
  - exists r. intros fuel F L.
    apply (nna_loop_fuel graph _ fuel _ _ _ _ E).
    apply Nat.max_lub; lia.
Qed.

(** ** Fully connected matrices *)

Lemma filter_length_le {A : Type} (P Q : A -> bool) (l : list A) :
  (forall x, In x l -> P x = true -> Q x = true) ->
  length (filter P l) <= length (filter Q l).
Proof.
  induction l as [|y l IH]; simpl; intros I; [lia|].
  assert (IH' : length (filter P l) <= length (filter Q l)) by auto.
  destruct (P y) eqn:Py.
  - rewrite (I y) by auto. simpl. lia.
  - destruct (Q y); simpl; lia.
Qed.

Lemma unvisited_count (l : list nat) (n : nat) :
  n <= length (filter (fun i => negb (py_in i l)) (seq 0 n)) + length l.
Proof.
  pose proof (filter_length (fun i => py_in i l) (seq 0 n)) as F.
  rewrite length_seq in F.
  assert (L : length (filter (fun i => py_in i l) (seq 0 n)) <= length l).
  { apply NoDup_incl_length.
    - apply NoDup_filter, seq_NoDup.
    - intros i I. apply filter_In in I. now apply py_in_true. }
  lia.
Qed.

Lemma remaining_fully_connected (graph : graph num) (passed_vortices : list nat)
    (w : nat) :
  fully_connected graph -> w < length graph ->
  length graph <= length (remaining graph passed_vortices w) + S (length passed_vortices).
Proof.
  intros FC L.
  pose proof (unvisited_count (w :: passed_vortices) (length graph)) as C.
  change (length (w :: passed_vortices)) with (S (length passed_vortices)) in C.
  assert (M : length (filter (fun i => negb (py_in i (w :: passed_vortices)))
                             (seq 0 (length graph)))
              <= length (remaining graph passed_vortices w)).
  { apply filter_length_le. intros i I P. apply in_seq in I.
    apply negb_true_iff in P. simpl in P. apply orb_false_elim in P.
    destruct P as [Ne U]. apply Nat.eqb_neq in Ne.
    destruct (FC w i) as [x ->]; [lia | lia | congruence |].
    now rewrite U. }
  lia.
Qed.

Lemma check_vortex_fully_connected (graph : graph num) (passed_vortices : list nat)
    (v : nat) :
  is_square graph = true -> fully_connected graph -> v < length graph ->
  _check_vortex graph passed_vortices v = Ret (negb (py_in v passed_vortices)).
Proof.
  intros S FC L. destruct (py_in v passed_vortices) eqn:U.
  - unfold _check_vortex. now rewrite U.
  - destruct (check_vortex_square graph passed_vortices v S L U) as ([|] & -> & B);
      [reflexivity|].
    destruct B as [B _]. destruct (B eq_refl) as (w & x & Ex & _ & R & G).
    assert (Lw : w < length graph).
    { unfold edge in Ex. inv_bind Ex. apply index_lt in Ex.
      now rewrite (is_square_row _ _ _ S Ea) in Ex. }
    pose proof (remaining_fully_connected graph passed_vortices w FC Lw). lia.
Qed.

Lemma select_fully_connected (graph : graph num) (passed_vortices : list nat)
    (current_vortex : nat) :
  is_square graph = true -> fully_connected graph ->
  current_vortex < length graph -> In current_vortex passed_vortices ->
  length passed_vortices < length graph ->
  exists v x, select graph passed_vortices current_vortex = Ret (v, Fin x).
Proof.
  intros S FC Lc Ic L. unfold select, current_row.
  destruct (index_defined graph _ Lc) as [row E]. rewrite E. simpl.
  pose proof (is_square_row _ _ _ S E) as Lr.
  rewrite (filterM_pure _ (fun iw => negb (py_in (fst iw) passed_vortices))).
  2:{ intros [i w] I. apply in_enumerate in I. simpl.
      apply check_vortex_fully_connected; trivial.
      rewrite <- Lr. apply nth_error_Some. congruence. }
  simpl.
  destruct (filter _ (enumerate row)) as [|c cs] eqn:F.
  - exfalso. pose proof (unvisited_count passed_vortices (length graph)) as C.
    destruct (filter (fun i => negb (py_in i passed_vortices)) (seq 0 (length graph)))
      as [|i l] eqn:G; [simpl in C; lia|].
    assert (I : In i (i :: l)) by (left; reflexivity).
    rewrite <- G in I. apply filter_In in I. destruct I as [I U].
    apply in_seq in I. rewrite <- Lr in I.
    destruct (index_defined row i) as [w Ew]; [lia|]. apply index_Ret in Ew.
    assert (J : In (i, w) (filter (fun iw => negb (py_in (fst iw) passed_vortices))
                                  (enumerate row))).
    { apply filter_In. split; [now apply in_enumerate | exact U]. }
    rewrite F in J. destruct J.
  - simpl. pose proof (min_from_In key_lt cs c) as I. rewrite <- F in I.
    destruct (min_from key_lt c cs) as [v mw]. apply filter_In in I.
    destruct I as [I U]. apply in_enumerate in I. simpl in U.
    apply negb_true_iff, py_in_false in U.
    assert (Lv : v < length graph).
    { rewrite <- Lr. apply nth_error_Some. congruence. }
    destruct (FC current_vortex v Lc Lv) as [x Ex]; [congruence|].
    rewrite (edge_index _ _ _ _ E) in Ex. apply index_Ret in Ex.
    exists v, x. congruence.
Qed.

Lemma nna_loop_fully_connected (graph : graph num) :
  is_square graph = true -> fully_connected graph ->
  forall fuel current_vortex passed_vortices route_weight e,
    NoDup passed_vortices ->
    (forall i, In i passed_vortices -> i < length graph) ->
    In current_vortex passed_vortices ->
    length passed_vortices < length graph ->
    nna_loop fuel graph current_vortex passed_vortices route_weight
    <> Some (Raise e).
Proof.
  intros S FC. induction fuel as [|fuel IH]; intros cur passed rw e ND B Ic L;
    simpl; [discriminate|].
  destruct (select_fully_connected graph passed cur S FC (B _ Ic) Ic L)
    as (v & x & Sel).
  rewrite Sel. apply select_sound in Sel. destruct Sel as (Lc & Lv & U & _).
  destruct (passed_append graph passed cur v ND (fun i I => or_intror (B i I)) Lc Lv U)
    as (ND' & B' & L').
  destruct (Nat.eqb_spec (length (passed ++ [v])) (length graph)) as [Eq|Ne];
    [discriminate|].
  apply IH; trivial.
  - apply in_or_app. right. now left.
  - lia.
Qed.

Lemma path_edges_fully_connected (graph : graph num) :
  fully_connected graph ->
  forall seq, NoDup seq -> (forall i, In i seq -> i < length graph) ->
    exists xs, path_edges graph seq = Ret (map Fin xs).
Proof.
  intros FC. induction seq as [|u l IH]; intros ND B.
  - exists []. reflexivity.
  - destruct l as [|b l].
    + exists []. reflexivity.
    + inversion ND as [|? ? Nu ND']; subst.
      destruct IH as [xs P]; [assumption | intros i I; apply B; now right |].
      destruct (FC u b) as [x Ex].
      * apply B. now left.
      * apply B. right. now left.
      * intros ->. apply Nu. now left.
      * exists (x :: xs).
        change (path_edges graph (u :: b :: l))
          with (w <- edge graph u b ;; ws <- path_edges graph (b :: l) ;; Ret (w :: ws)).
        now rewrite Ex, P.
Qed.

Lemma total_of_finite (xs : list num) : total_of (map Fin xs) = sum_weights xs.
Proof.
  unfold total_of, sum_weights. generalize (of_int 0) at 2 3.
  induction xs as [|x xs IH]; intros acc; simpl; [reflexivity | apply IH].
Qed.

(** On a fully connected square matrix with at least two stations the
    solver returns, whatever valid start it is given. *)
Lemma solver_fully_connected (graph : graph num) (start_vortex : option nat) :
  is_square graph = true -> fully_connected graph -> 2 <= length graph ->
  match start_vortex with Some s => s | None => 0 end < length graph ->
  exists seq total,
    (forall fuel, length graph <= S fuel ->
       _nearest_neighbor_algorithm fuel graph start_vortex = Some (Ret (seq, total)))
    /\ exists xs, path_edges graph seq = Ret (map Fin xs) /\ total = sum_weights xs.
Proof.
  intros S FC N Ls.
  destruct (solver_terminates graph start_vortex) as [r T].
  assert (E : _nearest_neighbor_algorithm (length graph - 1) graph start_vortex = Some r)
    by (apply T; lia).
  destruct r as [[seq total]|e].
  - exists seq, total. split; [intros fuel F; apply T; lia|].
    destruct (solver_total _ _ _ _ _ E) as (ws & P & ->).
    unfold _nearest_neighbor_algorithm in E. apply nna_loop_sequence in E.
    + destruct E as (_ & ND & B & _).
      destruct (path_edges_fully_connected graph FC seq ND B) as [xs Px].
      exists xs. split; [exact Px|]. rewrite <- total_of_finite. congruence.
    + constructor; [simpl; tauto | constructor].
    + intros i [<- | []]. now left.
  - exfalso. unfold _nearest_neighbor_algorithm in E. revert E.
    apply nna_loop_fully_connected;
      [exact S | exact FC | | intros i [<- | []]; exact Ls | now left | simpl; lia].
    constructor; [simpl; tauto | constructor].
Qed.

(** C3, as the code has it: on a fully connected matrix of 4 stations
    (distinct weights or not) the solver returns a sequence of length 4
    that is a permutation of the 4 indices, and the total it reports is
    the sum of the weights of the edges between consecutive vertices of
    the sequence, the edge from the last vertex back to the first left
    out. *)
Theorem solver_four_stations (graph : graph num) (start_vortex : option nat) :
  length graph = 4 -> is_square graph = true -> fully_connected graph ->
  match start_vortex with Some s => s | None => 0 end < 4 ->
  exists seq total,
    (forall fuel, 3 <= fuel ->
       _nearest_neighbor_algorithm fuel graph start_vortex = Some (Ret (seq, total)))
    /\ length seq = 4
    /\ Permutation seq [0; 1; 2; 3]
    /\ exists xs, path_edges graph seq = Ret (map Fin xs) /\ total = sum_weights xs.
Proof.
  intros N S FC Ls.
  destruct (solver_fully_connected graph start_vortex S FC) as (seq & total & T & X);
    [lia | lia |].
  exists seq, total. split; [intros fuel F; apply T; lia|].
  assert (E : _nearest_neighbor_algorithm 3 graph start_vortex = Some (Ret (seq, total)))
    by (apply T; lia).
  unfold _nearest_neighbor_algorithm in E. apply nna_loop_sequence in E.
  - destruct E as (_ & ND & B & L). rewrite N in *. repeat split; trivial.
    change [0; 1; 2; 3] with (List.seq 0 4).
    apply NoDup_Permutation_bis; trivial.
    + rewrite length_seq. lia.
    + intros i I. apply in_seq. specialize (B i I). lia.
  - constructor; [simpl; tauto | constructor].
  - intros i [<- | []]. now left.
Qed.

(** ** The weight matrix *)

Lemma index_list_set {A : Type} (x : A) :
  forall (l l' : list A) (i k : nat),
    list_set l i x = Ret l' ->
    index l' k = if k =? i then Ret x else index l k.
Proof.
  induction l as [|y l IH]; intros l' i k E; [discriminate|].
  destruct i as [|i]; simpl in E.
  - inversion E. destruct k; reflexivity.
  - inv_bind E. inversion E. destruct k as [|k]; [reflexivity|].
    apply (IH _ _ k) in Ea. exact Ea.
Qed.

Lemma length_list_set {A : Type} (x : A) :
  forall (l l' : list A) (i : nat), list_set l i x = Ret l' -> length l' = length l.
Proof.
  induction l as [|y l IH]; intros l' i E; [discriminate|].
  destruct i as [|i]; simpl in E.
  - inversion E. reflexivity.
  - inv_bind E. inversion E. simpl. f_equal. eauto.
Qed.

Lemma pair_weights_cons (self : Schedule num) (s : schedule)
    (todo : list schedule) (i j : nat) :
  pair_weights self (s :: todo) i j
  = pair_weights self [s] i j ++ pair_weights self todo i j.
Proof.
  unfold pair_weights, pair_values. simpl. rewrite app_nil_r.
  now rewrite flat_map_app.
Qed.

Lemma weight_matrix_step_edge (self : Schedule num) (weight_matrix M' : graph num)
    (schedule : schedule) :
  weight_matrix_step self weight_matrix schedule = Ret M' ->
  length M' = length weight_matrix
  /\ forall a b c,
       edge weight_matrix a b = Ret c ->
       edge M' a b = Ret (fold_left keep_smaller (pair_weights self [schedule] a b) c).
Proof.
  unfold weight_matrix_step. intros E.
  apply bind_Ret_inv in E. destruct E as (i & Ei & E).
  apply bind_Ret_inv in E. destruct E as (j & Ej & E).
  apply bind_Ret_inv in E. destruct E as (weight & Ew & E).
  apply bind_Ret_inv in E. destruct E as (row & Er & E).
  apply bind_Ret_inv in E. destruct E as (cell & Ec & E).
  assert (P : forall a b, pair_weights self [schedule] a b
                          = if (i =? a) && (j =? b)
                            then match weight with Weight w => [w] | NaN => [] end
                            else []).
  { intros a b. unfold pair_weights, pair_values. simpl. rewrite Ei, Ej, Ew.
    rewrite app_nil_r. destruct ((i =? a) && (j =? b)); [|reflexivity].
    simpl. now rewrite app_nil_r. }
  destruct weight as [weight|].
  2:{ inversion E; subst M'. split; [reflexivity|].
      intros a b c Ed. rewrite P. now destruct ((i =? a) && (j =? b)). }
  destruct (weight_ltb weight cell) eqn:Lt.
  - apply bind_Ret_inv in E. destruct E as (row' & Er' & E). split.
    + now apply length_list_set in E.
    + intros a b c Ed. rewrite P. unfold edge in *.
      rewrite (index_list_set _ _ _ _ a E).
      destruct (Nat.eqb_spec a i) as [->|Na].
      * rewrite Nat.eqb_refl. simpl. rewrite (index_list_set _ _ _ _ b Er').
        rewrite Er in Ed. simpl in Ed.
        destruct (Nat.eqb_spec b j) as [->|Nb].
        -- rewrite Nat.eqb_refl. simpl. unfold keep_smaller.
           assert (c = cell) by congruence. subst c. now rewrite Lt.
        -- destruct (Nat.eqb_spec j b); [congruence | exact Ed].
      * destruct (Nat.eqb_spec i a); [congruence | exact Ed].
  - inversion E; subst M'. split; [reflexivity|].
    intros a b c Ed. rewrite P.
    destruct (Nat.eqb_spec i a) as [<-|Na]; [|exact Ed].
    destruct (Nat.eqb_spec j b) as [<-|Nb]; [|exact Ed].
    simpl. unfold keep_smaller. unfold edge in *. rewrite Er in *. simpl in *.
    assert (c = cell) by congruence. subst c. now rewrite Lt.
Qed.

Lemma weight_matrix_loop_edge (self : Schedule num) :
  forall (todo : list schedule) (weight_matrix M' : graph num),
    weight_matrix_loop self weight_matrix todo = Ret M' ->
    length M' = length weight_matrix
    /\ forall a b c,
         edge weight_matrix a b = Ret c ->
         edge M' a b = Ret (fold_left keep_smaller (pair_weights self todo a b) c).
Proof.
  induction todo as [|schedule todo IH]; intros M M' E; simpl in E.
  - inversion E. split; [reflexivity | intros a b c Ed; exact Ed].
  - apply bind_Ret_inv in E. destruct E as (M1 & E1 & E).
    apply weight_matrix_step_edge in E1. destruct E1 as [L1 S1].
    apply IH in E. destruct E as [L2 S2]. split; [congruence|].
    intros a b c Ed. rewrite pair_weights_cons, fold_left_app.
    apply S2, S1, Ed.
Qed.

(** Every row has a weight once the matrix has been built. *)
Lemma weight_matrix_loop_weights (self : Schedule num) :
  forall (todo : list schedule) (weight_matrix M' : graph num),
    weight_matrix_loop self weight_matrix todo = Ret M' ->
    forall schedule, In schedule todo ->
      exists w, call (_get_weight self) schedule = Ret w.
Proof.
  induction todo as [|s todo IH]; intros M M' E schedule I; [destruct I|].
  simpl in E. apply bind_Ret_inv in E. destruct E as (M1 & E1 & E).
  destruct I as [<- | I]; [|eauto].
  unfold weight_matrix_step in E1.
  apply bind_Ret_inv in E1. destruct E1 as (i & _ & E1).
  apply bind_Ret_inv in E1. destruct E1 as (j & _ & E1).
  apply bind_Ret_inv in E1. destruct E1 as (w & Ew & _). eauto.
Qed.

(** Without a [nan] the weights of a pair are all its values. *)
Lemma pair_weights_all (self : Schedule num) (todo : list schedule) (i j : nat) :
  ~ In NaN (pair_values self todo i j) ->
  map Weight (pair_weights self todo i j) = pair_values self todo i j.
Proof.
  unfold pair_weights. induction (pair_values self todo i j) as [|x l IH]; intros N.
  - reflexivity.
  - destruct x as [w|]; [|destruct N; now left].
    simpl. f_equal. apply IH. intros I. apply N. now right.
Qed.

Lemma edge_initial (n a b : nat) :
  a < n -> b < n -> edge (repeat (repeat (@Inf num) n) n) a b = Ret Inf.
Proof.
  intros La Lb. unfold edge, index.
  rewrite (nth_error_repeat _ La). simpl. now rewrite (nth_error_repeat _ Lb).
Qed.

Section Order.
Hypothesis num_ltb_irrefl : forall x : num, num_ltb x x = false.
Hypothesis num_ltb_trans :
  forall x y z : num, num_ltb x y = true -> num_ltb y z = true -> num_ltb x z = true.

Lemma weight_ltb_irrefl (w : weight num) : weight_ltb w w = false.
Proof.
  destruct w; simpl; auto.
Qed.

Lemma weight_ltb_trans (a b c : weight num) :
  weight_ltb a b = true -> weight_ltb b c = true -> weight_ltb a c = true.
Proof.
  destruct a, b, c; simpl; try congruence. apply num_ltb_trans.
Qed.

Lemma keep_smaller_fold :
  forall (ws seen : list (weight num)) (c : weight num),
    (forall w, In w seen -> weight_ltb w c = false) ->
    (fold_left keep_smaller ws c = c \/ In (fold_left keep_smaller ws c) ws)
    /\ forall w, In w (seen ++ ws) -> weight_ltb w (fold_left keep_smaller ws c) = false.
Proof.
  induction ws as [|w' ws IH]; intros seen c B; simpl.
  - split; [now left|]. intros w I. rewrite app_nil_r in I. auto.
  - assert (B' : forall w, In w (seen ++ [w']) -> weight_ltb w (keep_smaller c w') = false).
    { intros w I. unfold keep_smaller. apply in_app_or in I.
      destruct (weight_ltb w' c) eqn:Lt.
      - destruct I as [I | [<- | []]]; [|apply weight_ltb_irrefl].
        destruct (weight_ltb w w') eqn:Lw; [|reflexivity].
        rewrite <- (B w I). symmetry. now apply weight_ltb_trans with w'.
      - destruct I as [I | [<- | []]]; auto. }
    destruct (IH (seen ++ [w']) (keep_smaller c w') B') as [I M]. split.
    + destruct I as [-> | I]; [|auto]. unfold keep_smaller.
      destruct (weight_ltb w' c); auto.
    + intros w Iw. apply M. rewrite <- app_assoc. exact Iw.
Qed.

(** C5, as the code has it: once the matrix is built, the cell (i, j)
    holds a smallest of the weights, other than [nan], that the selected
    strategy gives to the rows from station i to station j, and [Inf]
    when no row from i to j has such a weight.  Where no row weighs
    [nan], these are the weights of all the rows from i to j
    ([pair_weights_all]).  The order [<] of the numbers is taken
    irreflexive and transitive. *)
Theorem weight_matrix_cell_minimum (self : Schedule num) (weight_matrix : graph num)
    (i j : nat) :
  _get_weight_matrix self = Ret weight_matrix ->
  i < length (stations self) -> j < length (stations self) ->
  exists c,
    edge weight_matrix i j = Ret c
    /\ (pair_weights self (schedules self) i j = [] -> c = Inf)
    /\ (pair_weights self (schedules self) i j <> [] ->
        is_minimum c (pair_weights self (schedules self) i j)).
Proof.
  unfold _get_weight_matrix. intros E Li Lj.
  apply weight_matrix_loop_edge in E. destruct E as [_ E].
  specialize (E i j Inf (edge_initial _ i j Li Lj)).
  eexists. split; [exact E|].
  destruct (keep_smaller_fold (pair_weights self (schedules self) i j) [] Inf)
    as [I M]; [intros w []|].
  simpl in M. split.
  - intros ->. reflexivity.
  - intros N. split; [|exact M].
    destruct I as [I | I]; [|exact I]. rewrite I in *.
    destruct (pair_weights self (schedules self) i j) as [|w ws]; [congruence|].
    specialize (M w (or_introl eq_refl)).
    destruct w; [discriminate | now left].
Qed.

End Order.

(** ** The printing loop *)

Lemma set_search_by_selected (param : string) (self : Schedule num) :
  param = "price"%string \/ param = "time"%string ->
  selected (fst (set_search_by param self)).
Proof.
  intros [-> | ->]; [left | right]; split; reflexivity.
Qed.

Lemma leg_eqb_true (a b : leg) : leg_eqb a b = true -> a = b.
Proof.
  unfold leg_eqb. destruct (list_eq_dec string_dec a b); [trivial | discriminate].
Qed.

(** Under either strategy the rule answers on every row that has a weight,
    and a row that matches leaves from the origin of the leg. *)
Lemma is_exect_selected (self : Schedule num) (s : schedule) (l : leg)
    (route : list leg) :
  selected self ->
  (exists w, call (_get_weight self) s = Ret w) ->
  exists b, is_exect self s (l :: route) = Ret b
            /\ (b = true -> hd_error l = Some (origin s)).
Proof.
  unfold is_exect. intros [[G ->] | [G ->]] [w W]; rewrite G in W; simpl in W.
  - unfold price_is_exect_schedule. unfold price_get_weight in W. rewrite W. simpl.
    eexists. split; [reflexivity|]. intros E. apply leg_eqb_true in E. now subst l.
  - unfold time_is_exect_schedule. unfold time_get_weight in W.
    apply bind_Ret_inv in W. destruct W as (z & -> & _). simpl.
    eexists. split; [reflexivity|]. intros E. apply leg_eqb_true in E. now subst l.
Qed.

Lemma first_exect_found (self : Schedule num) (route : list leg) (s : schedule) :
  forall todo, first_exect self todo route = Ret (Some s) ->
    In s todo /\ is_exect self s route = Ret true.
Proof.
  induction todo as [|t todo IH]; simpl; intros E; [discriminate|].
  apply bind_Ret_inv in E. destruct E as ([|] & Et & E).
  - inversion E; subst. auto.
  - destruct (IH E). auto.
Qed.


Section Loop.
Variable self : Schedule num.
Hypothesis rule_defined :
  forall s l route, In s (schedules self) -> exists b, is_exect self s (l :: route) = Ret b.



End Loop.

Lemma print_loop_first_row (self : Schedule num) (s : schedule) :
  forall fuel route out r,
    print_loop fuel self route = (Row s :: out, r) ->
    In s (schedules self) /\ is_exect self s route = Ret true.
Proof.
  induction fuel as [|fuel IH]; intros [|l route] out r E; simpl in E;
    try discriminate.
  destruct (first_exect self (schedules self) (l :: route)) as [[s'|]|e] eqn:F.
  - destruct (print_loop fuel self route) as [out' r']. inversion E; subst.
    now apply first_exect_found in F.
  - eauto.
  - discriminate.
Qed.


(** ** The route that is printed *)

Lemma mapM_length {A B : Type} (f : A -> result B) :
  forall (l : list A) (l' : list B), mapM f l = Ret l' -> length l' = length l.
Proof.
  induction l as [|x l IH]; simpl; intros l' E.
  - inversion E. reflexivity.
  - apply bind_Ret_inv in E. destruct E as (y & _ & E).
    apply bind_Ret_inv in E. destruct E as (r & Er & E).
    inversion E. simpl. f_equal. auto.
Qed.

Lemma get_weight_matrix_length (self : Schedule num) (weight_matrix : graph num) :
  _get_weight_matrix self = Ret weight_matrix ->
  length weight_matrix = length (stations self).
Proof.
  unfold _get_weight_matrix. intros E. apply weight_matrix_loop_edge in E.
  destruct E as [L _]. now rewrite L, repeat_length.
Qed.

(** C10: when [find_the_best_route] prints its header, the solver has
    been run on the weight matrix with start index 1 and has returned a
    sequence that begins with 1; there are at least two stations; the
    first leg of the route leaves from the station of index 1, and under
    either strategy so does the first row printed. *)
Theorem find_the_best_route_starts_at_1 (fuel : nat) (self self' : Schedule num)
    (text : string) (out : list printed) (r : option (result unit)) :
  selected self ->
  find_the_best_route fuel self = (self', Text text :: out, r) ->
  2 <= length (stations self)
  /\ exists weight_matrix seq total from to w route,
       _get_weight_matrix self = Ret weight_matrix
       /\ _nearest_neighbor_algorithm fuel weight_matrix (Some 1)
          = Some (Ret (seq, total))
       /\ hd_error seq = Some 1
       /\ index (stations self) 1 = Ret from
       /\ print_loop fuel self' ([from; to; w] :: route) = (out, r)
       /\ forall s out', out = Row s :: out' -> origin s = from.
Proof.
  intros Sel. unfold find_the_best_route.
  destruct (_get_weight_matrix self) as [M|e] eqn:EM; [|discriminate].
  set (self1 := {| schedules := schedules self; stations := stations self;
                   _weight_matrix := Some M; _get_weight := _get_weight self;
                   _is_exact_schedule := _is_exact_schedule self;
                   _is_exect_schedule := _is_exect_schedule self;
                   _formatting_result := _formatting_result self;
                   _search_mode := _search_mode self |}).
  destruct (_nearest_neighbor_algorithm fuel M (Some 1)) as [[[seq total]|e]|] eqn:EN;
    [|discriminate|discriminate].
  simpl fst. simpl snd.
  destruct (mapM _ (enumerate seq)) as [route0|e] eqn:ER; simpl; [|discriminate].
  pose proof (mapM_length _ _ _ ER) as LR.
  destruct (solver_sequence fuel M (Some 1) seq total EN) as (rest & -> & _ & B & L).
  pose proof (get_weight_matrix_length self M EM) as LM.
  assert (N : 2 <= length (stations self)).
  { rewrite <- LM. specialize (B 1 (or_introl eq_refl)). lia. }
  destruct rest as [|q rest]; [simpl in L; lia|].
  unfold enumerate in ER, LR. simpl in ER.
  apply bind_Ret_inv in ER. destruct ER as (leg0 & E0 & ER).
  apply bind_Ret_inv in ER. destruct ER as (legs & E1 & ER).
  inversion ER; subst route0; clear ER.
  destruct legs as [|leg1 legs].
  { apply bind_Ret_inv in E1. destruct E1 as (y & _ & E1).
    apply bind_Ret_inv in E1. destruct E1 as (r' & _ & E1). discriminate. }
  apply bind_Ret_inv in E0. destruct E0 as (from & Ef & E0).
  apply bind_Ret_inv in E0. destruct E0 as (k & _ & E0).
  apply bind_Ret_inv in E0. destruct E0 as (q' & _ & E0).
  apply bind_Ret_inv in E0. destruct E0 as (to & _ & E0).
  apply bind_Ret_inv in E0. destruct E0 as (row & _ & E0).
  apply bind_Ret_inv in E0. destruct E0 as (w & _ & E0).
  inversion E0; subst leg0; clear E0.
  destruct (_formatting_result self) as [fmt|]; [|discriminate].
  change (removelast ([from; to; weight_str w] :: leg1 :: legs))
    with ([from; to; weight_str w] :: removelast (leg1 :: legs)).
  destruct (print_loop fuel self1 _) as [out0 r0] eqn:EP.
  intros E. inversion E; subst self' out r; clear E.
  split; [exact N|].
  exists M, (1 :: q :: rest), total, from, to, (weight_str w), (removelast (leg1 :: legs)).
  repeat split; trivial.
  intros s out' ->. apply print_loop_first_row in EP. destruct EP as [I EP].
  destruct (is_exect_selected self1 s [from; to; weight_str w]
              (removelast (leg1 :: legs)) Sel) as (b & Eb & O).
  - exact (weight_matrix_loop_weights self _ _ _ EM s I).
  - assert (Hb : Ret b = Ret true) by (rewrite <- Eb; exact EP).
    inversion Hb; subst b. specialize (O eq_refl). simpl in O. congruence.
Qed.

End Properties.

Lemma set_search_by_unknown_witness :
  set_search_by "cost" (__init__ (num:=Z) timetable)
  = (__init__ timetable, Raise (Exception "cost is incorrect search mode."))
  /\ _get_weight (fst (set_search_by "cost" (__init__ (num:=Z) timetable))) = None
  /\ _is_exect_schedule (fst (set_search_by "cost" (__init__ (num:=Z) timetable))) = None
  /\ _formatting_result (fst (set_search_by "cost" (__init__ (num:=Z) timetable))) = None
  /\ _search_mode (fst (set_search_by "cost" (__init__ (num:=Z) timetable))) = None.
Proof.
  apply (set_search_by_unknown "cost" (__init__ (num:=Z) timetable));
    discriminate.
Defined.

Lemma candidates_unvisited_accepted_witness :
  (forall i w, In (i, w) (@nil (nat * weight Z)) ->
     py_in i [0] = false
     /\ edge four_ring 0 i = Ret w
     /\ _check_vortex four_ring [0] i = Ret true)
  /\ (@nil (nat * weight Z) = [] ->
      forall fuel route_weight,
        nna_loop (S fuel) four_ring 0 [0] route_weight = Some (Raise ValueError)).
Proof.
  apply (candidates_unvisited_accepted four_ring [0] 0 []). reflexivity.
Defined.

(** C4 as stated fails: between two stations without connection the only
    candidate has an infinite weight, and the solver selects it. *)
Lemma candidates_may_have_infinite_weight :
  current_row two_islands [0] 0 = Ret [(1, Inf)]
  /\ ~ (forall i w, In (i, w) [(1, @Inf Z)] -> is_finite w = true)
  /\ _nearest_neighbor_algorithm 1 two_islands None = Some (Ret ([0; 1], 0%Z)).
Proof.
  split; [reflexivity | split; [|reflexivity]].
  intros F. specialize (F 1 Inf (or_introl eq_refl)). discriminate.
Qed.

(** Station 2 of [five_stations] has a finite edge to the visited station
    0, whose weight 12 is not among the visited vertices: the two tests
    differ there, at a station that has four stations left to go to. *)
Lemma check_vortex_rejects_iff_witness :
  (_check_vortex five_stations [0] 2 = Ret false <->
   exists w, unvisited_neighbor five_stations [0] 2 w
             /\ length (remaining five_stations [0] w) <= 1
             /\ length [0] + 2 < length five_stations)
  /\ (_check_vortex five_stations [0] 2 = Ret true <->
      ~ exists w, unvisited_neighbor five_stations [0] 2 w
                  /\ length (remaining five_stations [0] w) <= 1
                  /\ length [0] + 2 < length five_stations).
Proof.
  apply (check_vortex_rejects_iff five_stations [0] 2).
  - reflexivity.
  - simpl. lia.
  - reflexivity.
  - intros w x E R G.
    do 5 (destruct w as [|w];
          [vm_compute in E; inversion E;
           first [reflexivity | exfalso; vm_compute in R; lia]|]).
    exfalso. vm_compute in E. destruct w; discriminate.
Defined.

(** C1 as stated fails: with three stations and one of them visited, one
    being at least N-2, station 2 is an unvisited neighbour of station 1
    with a single unvisited station left to go to, and yet the filter
    accepts station 1. *)
Lemma check_vortex_accepts_in_last_steps :
  _check_vortex three_stations [0] 1 = Ret true
  /\ exists w, unvisited_neighbor three_stations [0] 1 w
               /\ length (remaining three_stations [0] w) <= 1
               /\ length three_stations - 2 <= length [0].
Proof.
  split; [reflexivity|]. exists 2. split; [|split].
  - split; [simpl; lia | split; [reflexivity | exists 4%Z; reflexivity]].
  - vm_compute. lia.
  - simpl. lia.
Qed.

Lemma solver_returns_permutation_witness :
  length [1; 0; 2; 3] = length four_stations
  /\ hd_error [1; 0; 2; 3] = Some 1
  /\ NoDup [1; 0; 2; 3]
  /\ Permutation [1; 0; 2; 3] (List.seq 0 (length four_stations)).
Proof.
  apply (solver_returns_permutation 3 four_stations (Some 1) [1; 0; 2; 3] 63%Z).
  reflexivity.
Defined.

Lemma four_stations_fully_connected : fully_connected four_stations.
Proof.
  intros a b La Lb N. simpl in La, Lb.
  do 4 (destruct a as [|a]; [do 4 (destruct b as [|b]; [first [congruence | eexists; reflexivity]|]); lia|]).
  lia.
Qed.

Lemma solver_four_stations_witness :
  exists seq total,
    (forall fuel, 3 <= fuel ->
       _nearest_neighbor_algorithm fuel four_stations None = Some (Ret (seq, total)))
    /\ length seq = 4
    /\ Permutation seq [0; 1; 2; 3]
    /\ exists xs, path_edges four_stations seq = Ret (map Fin xs)
                  /\ total = sum_weights xs.
Proof.
  apply (solver_four_stations four_stations None).
  - reflexivity.
  - reflexivity.
  - exact four_stations_fully_connected.
  - simpl. lia.
Defined.

(** C3 as stated fails: on the four stations, whose weights are distinct,
    the solver reports 63 = 10 + 21 + 32 for the sequence 0, 1, 2, 3, and
    the sum with the edge from 3 back to 0, of weight 13, is 76. *)
Lemma solver_total_without_wrap_edge :
  _nearest_neighbor_algorithm 3 four_stations None = Some (Ret ([0; 1; 2; 3], 63%Z))
  /\ circuit_edges four_stations [0; 1; 2; 3]
     = Ret (map Fin [10; 21; 32; 13]%Z)
  /\ sum_weights [10; 21; 32; 13]%Z = 76%Z
  /\ 63%Z <> sum_weights [10; 21; 32; 13]%Z.
Proof.
  repeat split; vm_compute; discriminate.
Qed.

Lemma Z_ltb_trans (x y z : Z) :
  (x <? y)%Z = true -> (y <? z)%Z = true -> (x <? z)%Z = true.
Proof.
  rewrite !Z.ltb_lt. lia.
Qed.

Lemma weight_matrix_cell_minimum_witness :
  exists c,
    edge [[Inf; Fin 20; Inf]; [Inf; Inf; Fin 30]; [Fin 30; Inf; Inf]]%Z 0 1 = Ret c
    /\ (pair_weights by_time (schedules by_time) 0 1 = [] -> c = Inf)
    /\ (pair_weights by_time (schedules by_time) 0 1 <> [] ->
        is_minimum c (pair_weights by_time (schedules by_time) 0 1)).
Proof.
  apply (@weight_matrix_cell_minimum Z PyWhole Z.ltb_irrefl Z_ltb_trans by_time
           [[Inf; Fin 20; Inf]; [Inf; Inf; Fin 30]; [Fin 30; Inf; Inf]]%Z 0 1).
  - reflexivity.
  - vm_compute. lia.
  - vm_compute. lia.
Defined.

(** C5 as stated fails: the one row of [nan_price] goes from A to B and is
    priced nan; the cell (0, 1) of the matrix holds infinity although a
    row exists for the pair, and infinity is not the weight of that row. *)
Lemma weight_matrix_cell_ignores_nan :
  stations by_price_nan = ["A"; "B"]%string
  /\ _get_weight_matrix by_price_nan = Ret [[Inf; Inf]; [Inf; Inf]]
  /\ edge [[@Inf Z; Inf]; [Inf; Inf]] 0 1 = Ret Inf
  /\ pair_values by_price_nan (schedules by_price_nan) 0 1 = [NaN]
  /\ ~ In (Weight Inf) (pair_values by_price_nan (schedules by_price_nan) 0 1).
Proof.
  repeat split. intros [I | []]. discriminate.
Qed.


Lemma find_the_best_route_starts_at_1_witness :
  2 <= length (stations by_time)
  /\ exists weight_matrix seq total from to w route,
       _get_weight_matrix by_time = Ret weight_matrix
       /\ _nearest_neighbor_algorithm 10 weight_matrix (Some 1) = Some (Ret (seq, total))
       /\ hd_error seq = Some 1
       /\ index (stations by_time) 1 = Ret from
       /\ print_loop 10 (fst (fst (find_the_best_route 10 by_time)))
            ([from; to; w] :: route)
          = ([Row (mkSchedule "2" "B" "C" "5" "08:30" "09:00");
              Row (mkSchedule "3" "C" "A" "7" "09:00" "09:30")]%string,
             Some (Ret tt))
       /\ forall s out',
            [Row (mkSchedule "2" "B" "C" "5" "08:30" "09:00");
             Row (mkSchedule "3" "C" "A" "7" "09:00" "09:30")]%string
            = Row s :: out' ->
            origin s = from.
Proof.
  apply (find_the_best_route_starts_at_1 10 by_time
           (fst (fst (find_the_best_route 10 by_time)))
           (header (Some "time") "1 hours and 60 minutes")%string).
  - right. split; reflexivity.
  - reflexivity.
Defined.

(** ** Runs on the sample inputs *)

(** With station 0 visited, station 1 is rejected: its neighbour 3 has
    station 4 only left to go to. *)
Example check_vortex_five_stations :
  _check_vortex five_stations [0] 1 = Ret false
  /\ remaining five_stations [0] 3 = [4]
  /\ current_row five_stations [0] 0 = Ret [(3, Fin 30%Z)].
Proof.
  repeat split.
Qed.

(** On the ring every candidate is rejected at the first step, although
    0 -> 1 -> 2 -> 3 -> 0 visits every station. *)
Example four_ring_run :
  current_row four_ring [0] 0 = Ret []
  /\ _nearest_neighbor_algorithm 3 four_ring None = Some (Raise ValueError).
Proof.
  split; reflexivity.
Qed.

(** A single station: the first step has no candidate. *)
Example single_station_run :
  _nearest_neighbor_algorithm 1 [[@Inf Z]] None = Some (Raise ValueError)
  /\ _nearest_neighbor_algorithm 1 [[@Inf Z]] (Some 1) = Some (Raise IndexError).
Proof.
  split; reflexivity.
Qed.

(** The timetable in time mode: the header and the two rows printed. *)
Example timetable_run :
  _get_stations timetable = ["A"; "B"; "C"]%string
  /\ snd (fst (find_the_best_route 3 by_time))
     = [Text (header (Some "time") "1 hours and 60 minutes")%string;
        Row (mkSchedule "2" "B" "C" "5" "08:30" "09:00");
        Row (mkSchedule "3" "C" "A" "7" "09:00" "09:30")]%string
  /\ snd (find_the_best_route 3 by_time) = Some (Ret tt).
Proof.
  repeat split.
Qed.

(** Clock times and their texts. *)
Example date_examples :
  _date_to_num "08:30" = Ret 510%Z
  /\ _date_to_num "0830" = Raise IndexError
  /\ _date_to_num "8h:30" = Raise ValueError
  /\ _num_to_date 545 = Ret "09:05:00"%string
  /\ time_formatting_result 125%Z = "2 hours and 61 minutes"%string.
Proof.
  repeat split.
Qed.

(** After the timetable's leg from B to C, a leg that no row matches keeps
    the loop running: no fuel is enough. *)
Example print_loop_stalls :
  ~ all_legs_matched by_time [["B"; "C"; "30"]; ["C"; "A"; "inf"]]%string
  /\ print_loop 1000 by_time [["B"; "C"; "30"]; ["C"; "A"; "inf"]]%string
     = ([Row (mkSchedule "2" "B" "C" "5" "08:30" "09:00")]%string, None).
Proof.
  split; [|vm_compute; reflexivity].
  intros [_ [[s [I M]] _]].
  repeat (destruct I as [<- | I]; [vm_compute in M; discriminate|]). destruct I.
Qed.

(** With rows from A to B and from B to C only, the solver goes from C to
    A over an edge that does not exist, and the printing loop is still
    running after 1000 iterations. *)
Example one_way_run :
  _nearest_neighbor_algorithm 2
    [[Inf; Fin 30; Inf]; [Inf; Inf; Fin 30]; [Inf; Inf; Inf]]%Z (Some 1)
  = Some (Ret ([1; 2; 0], 30%Z))
  /\ snd (find_the_best_route 1000 (fst (set_search_by "time" (__init__ one_way))))
     = None.
Proof.
  split; vm_compute; reflexivity.
Qed.

(** * Further properties *)

Section Further.
Context {num : Type} `{PyNum num}.

(** ** The stations *)

Lemma insert_sorted_In (x s : string) (l : list string) :
  In s (insert_sorted x l) <-> s = x \/ In s l.
Proof.
  induction l as [|y l IH]; simpl.
  - intuition.
  - destruct (String.leb x y); simpl; [intuition|]. rewrite IH. intuition.
Qed.

Lemma sorted_In (s : string) (l : list string) : In s (sorted l) <-> In s l.
Proof.
  induction l as [|y l IH]; simpl; [tauto|].
  rewrite insert_sorted_In, IH. intuition.
Qed.

Lemma insert_sorted_NoDup (x : string) (l : list string) :
  ~ In x l -> NoDup l -> NoDup (insert_sorted x l).
Proof.
  induction l as [|y l IH]; simpl; intros N D.
  - constructor; [tauto | constructor].
  - destruct (String.leb x y).
    + constructor; assumption.
    + inversion D; subst. constructor.
      * rewrite insert_sorted_In. intuition.
      * apply IH; tauto.
Qed.

Lemma sorted_NoDup (l : list string) : NoDup l -> NoDup (sorted l).
Proof.
  induction l as [|y l IH]; simpl; intros D; [constructor|].
  inversion D; subst. apply insert_sorted_NoDup; [|auto].
  now rewrite sorted_In.
Qed.

Lemma leb_false_ltb (x y : string) : String.leb x y = false -> station_lt y x.
Proof.
  unfold String.leb, station_lt, String.ltb. rewrite (String.compare_antisym y x).
  destruct (String.compare x y); simpl; congruence.
Qed.

Lemma leb_true_ltb (x y : string) : String.leb x y = true -> x <> y -> station_lt x y.
Proof.
  unfold String.leb, station_lt, String.ltb. intros L N.
  destruct (String.compare x y) eqn:C; try congruence.
  apply String.compare_eq_iff in C. contradiction.
Qed.

Lemma insert_sorted_Sorted (x : string) (l : list string) :
  ~ In x l -> Sorted station_lt l -> Sorted station_lt (insert_sorted x l).
Proof.
  induction l as [|y l IH]; simpl; intros N S.
  - repeat constructor.
  - destruct (String.leb x y) eqn:L.
    + constructor; [assumption|]. constructor. apply leb_true_ltb; intuition.
    + apply Sorted_inv in S. destruct S as [S Hd]. constructor; [apply IH; tauto|].
      destruct l as [|z l]; simpl.
      * constructor. now apply leb_false_ltb.
      * destruct (String.leb x z); constructor;
          [now apply leb_false_ltb | now inversion Hd].
Qed.

Lemma sorted_Sorted (l : list string) : NoDup l -> Sorted station_lt (sorted l).
Proof.
  induction l as [|y l IH]; simpl; intros D; [constructor|].
  inversion D; subst. apply insert_sorted_Sorted; [|auto].
  now rewrite sorted_In.
Qed.

Lemma get_stations_In (rows : list schedule) (s : string) :
  In s (_get_stations rows) <->
  exists row, In row rows /\ (origin row = s \/ destination row = s).
Proof.
  unfold _get_stations. rewrite sorted_In, nodup_In, in_app_iff, !in_map_iff. split.
  - intros [(row & E & I) | (row & E & I)]; exists row; auto.
  - intros (row & I & [E | E]); [left | right]; exists row; auto.
Qed.

Lemma get_stations_NoDup (rows : list schedule) : NoDup (_get_stations rows).
Proof.
  apply sorted_NoDup, NoDup_nodup.
Qed.

(** X1: the station list holds exactly the names that are the origin or
    the destination of some row, each once, in strictly increasing
    order. *)
Theorem get_stations_sorted (rows : list schedule) :
  Sorted station_lt (_get_stations rows)
  /\ NoDup (_get_stations rows)
  /\ forall s, In s (_get_stations rows) <->
               exists row, In row rows /\ (origin row = s \/ destination row = s).
Proof.
  split; [|split].
  - apply sorted_Sorted, NoDup_nodup.
  - apply get_stations_NoDup.
  - apply get_stations_In.
Qed.

Lemma list_index_In (x : string) (l : list string) :
  In x l -> exists i, list_index x l = Ret i /\ index l i = Ret x.
Proof.
  induction l as [|y l IH]; simpl; intros I; [destruct I|].
  destruct (String.eqb_spec y x) as [->|N].
  - exists 0. auto.
  - destruct I as [E | I]; [contradiction|].
    destruct (IH I) as (i & -> & E). exists (S i). auto.
Qed.

Lemma list_index_NoDup (l : list string) :
  NoDup l -> forall i x, index l i = Ret x -> list_index x l = Ret i.
Proof.
  induction 1 as [|y l N D IH]; intros i x E.
  - destruct i; discriminate.
  - simpl. destruct i as [|i].
    + inversion E. now rewrite String.eqb_refl.
    + change (index l i = Ret x) in E.
      destruct (String.eqb_spec y x) as [->|_].
      * apply index_Ret, nth_error_In in E. contradiction.
      * now rewrite (IH i x E).
Qed.

Lemma row_stations (rows : list schedule) (row : schedule) :
  In row rows ->
  In (origin row) (_get_stations rows) /\ In (destination row) (_get_stations rows).
Proof.
  intros I. split; apply get_stations_In; exists row; auto.
Qed.

(** X2: on the station list [index] and [l.index] are inverse to each
    other: the name at position [i] is found at position [i], and the
    origin and the destination of every row are found, at the positions
    that hold them. *)
Theorem stations_index_round_trip (rows : list schedule) :
  (forall i s, index (_get_stations rows) i = Ret s ->
     list_index s (_get_stations rows) = Ret i)
  /\ (forall row, In row rows ->
        exists i j,
          list_index (origin row) (_get_stations rows) = Ret i
          /\ list_index (destination row) (_get_stations rows) = Ret j
          /\ index (_get_stations rows) i = Ret (origin row)
          /\ index (_get_stations rows) j = Ret (destination row)).
Proof.
  split.
  - apply list_index_NoDup, get_stations_NoDup.
  - intros row I. destruct (row_stations rows row I) as [Io Id].
    destruct (list_index_In _ _ Io) as (i & Ei & Xi).
    destruct (list_index_In _ _ Id) as (j & Ej & Xj).
    exists i, j. auto.
Qed.

(** ** The shape of the weight matrix *)

Lemma list_set_defined {A : Type} (x : A) :
  forall (l : list A) (i : nat), i < length l -> exists l', list_set l i x = Ret l'.
Proof.
  induction l as [|y l IH]; intros i L; simpl in L; [lia|].
  destruct i as [|i]; simpl; [eauto|].
  destruct (IH i) as [l' ->]; [lia|]. simpl. eauto.
Qed.

Lemma list_set_Forall {A : Type} (P : A -> Prop) (x : A) :
  forall (l l' : list A) (i : nat),
    Forall P l -> P x -> list_set l i x = Ret l' -> Forall P l'.
Proof.
  induction l as [|y l IH]; intros l' i F Px E; [discriminate|].
  inversion F; subst. destruct i as [|i]; simpl in E.
  - inversion E. constructor; assumption.
  - apply bind_Ret_inv in E. destruct E as (r & Er & E). inversion E.
    constructor; [assumption | eauto].
Qed.

Lemma list_index_lt (x : string) (l : list string) (i : nat) :
  list_index x l = Ret i -> i < length l.
Proof.
  revert i. induction l as [|y l IH]; simpl; intros i E; [discriminate|].
  destruct (String.eqb y x).
  - inversion E. lia.
  - apply bind_Ret_inv in E. destruct E as (n & En & E). inversion E.
    specialize (IH n En). lia.
Qed.

(** [n] rows of [n] entries. *)
Lemma weight_matrix_step_shape (self : Schedule num) (M M' : graph num)
    (s : schedule) (n : nat) :
  length M = n -> Forall (fun row => length row = n) M ->
  weight_matrix_step self M s = Ret M' ->
  length M' = n /\ Forall (fun row => length row = n) M'.
Proof.
  intros L F E. split.
  - apply weight_matrix_step_edge in E. destruct E as [E _]. congruence.
  - unfold weight_matrix_step in E.
    apply bind_Ret_inv in E. destruct E as (i & _ & E).
    apply bind_Ret_inv in E. destruct E as (j & _ & E).
    apply bind_Ret_inv in E. destruct E as (w & _ & E).
    apply bind_Ret_inv in E. destruct E as (row & Er & E).
    apply bind_Ret_inv in E. destruct E as (cell & _ & E).
    destruct w as [w|]; [|inversion E; subst; exact F].
    destruct (weight_ltb w cell); [|inversion E; subst; exact F].
    apply bind_Ret_inv in E. destruct E as (row' & Er' & E).
    apply (list_set_Forall _ _ _ _ _ F) in E; [exact E|].
    apply length_list_set in Er'. rewrite Er'.
    apply index_Ret, nth_error_In in Er.
    rewrite Forall_forall in F. auto.
Qed.

Lemma weight_matrix_loop_shape (self : Schedule num) (n : nat) :
  forall (todo : list schedule) (M M' : graph num),
    length M = n -> Forall (fun row => length row = n) M ->
    weight_matrix_loop self M todo = Ret M' ->
    length M' = n /\ Forall (fun row => length row = n) M'.
Proof.
  induction todo as [|s todo IH]; intros M M' L F E; simpl in E.
  - inversion E; subst. auto.
  - apply bind_Ret_inv in E. destruct E as (M1 & E1 & E).
    destruct (weight_matrix_step_shape self M M1 s n L F E1) as [L1 F1]. eauto.
Qed.

Lemma initial_shape (n : nat) :
  length (repeat (repeat (@Inf num) n) n) = n
  /\ Forall (fun row => length row = n) (repeat (repeat (@Inf num) n) n).
Proof.
  split; [apply repeat_length|]. apply Forall_forall. intros row I.
  apply repeat_spec in I. subst. apply repeat_length.
Qed.

Lemma shape_is_square (M : graph num) (n : nat) :
  length M = n -> Forall (fun row => length row = n) M -> is_square M = true.
Proof.
  intros L F. unfold is_square. apply forallb_forall. intros row I.
  rewrite Forall_forall in F. apply Nat.eqb_eq. rewrite (F row I). auto.
Qed.

Lemma get_weight_matrix_shape (self : Schedule num) (M : graph num) :
  _get_weight_matrix self = Ret M ->
  length M = length (stations self) /\ is_square M = true.
Proof.
  unfold _get_weight_matrix. intros E.
  destruct (initial_shape (length (stations self))) as [L F].
  destruct (weight_matrix_loop_shape self _ _ _ _ L F E) as [L' F'].
  split; [exact L' | exact (shape_is_square M _ L' F')].
Qed.

(** X3: the matrix that [_get_weight_matrix] returns has one row for each
    station and every row has one entry for each station. *)
Theorem get_weight_matrix_square (self : Schedule num) (M : graph num) :
  _get_weight_matrix self = Ret M ->
  length M = length (stations self)
  /\ forall row, In row M -> length row = length (stations self).
Proof.
  unfold _get_weight_matrix. intros E.
  destruct (initial_shape (length (stations self))) as [L F].
  destruct (weight_matrix_loop_shape self _ _ _ _ L F E) as [L' F'].
  split; [exact L'|]. now apply Forall_forall.
Qed.

Lemma weight_matrix_step_defined (self : Schedule num) (M : graph num)
    (s : schedule) :
  length M = length (stations self) ->
  Forall (fun row => length row = length (stations self)) M ->
  In (origin s) (stations self) -> In (destination s) (stations self) ->
  (exists w, call (_get_weight self) s = Ret w) ->
  exists M', weight_matrix_step self M s = Ret M'.
Proof.
  intros L F Io Id [w W]. unfold weight_matrix_step.
  destruct (list_index_In _ _ Io) as (i & Ei & _).
  destruct (list_index_In _ _ Id) as (j & Ej & _).
  rewrite Ei, Ej, W. simpl.
  apply list_index_lt in Ei, Ej.
  destruct (index_defined M i) as [row Er]; [lia|]. rewrite Er. simpl.
  assert (Lr : length row = length (stations self)).
  { rewrite Forall_forall in F. apply F. now apply index_Ret, nth_error_In in Er. }
  destruct (index_defined row j) as [cell Ec]; [lia|]. rewrite Ec. simpl.
  destruct w as [w|]; [|eauto].
  destruct (weight_ltb w cell); [|eauto].
  destruct (list_set_defined w row j) as [row' ->]; [lia|]. simpl.
  apply list_set_defined. lia.
Qed.

Lemma weight_matrix_loop_defined (self : Schedule num) :
  forall (todo : list schedule) (M : graph num),
    length M = length (stations self) ->
    Forall (fun row => length row = length (stations self)) M ->
    (forall s, In s todo ->
       In (origin s) (stations self) /\ In (destination s) (stations self)
       /\ exists w, call (_get_weight self) s = Ret w) ->
    exists M', weight_matrix_loop self M todo = Ret M'.
Proof.
  induction todo as [|s todo IH]; intros M L F D; simpl; [eauto|].
  destruct (D s) as (Io & Id & W); [now left|].
  destruct (weight_matrix_step_defined self M s L F Io Id W) as [M1 E1].
  rewrite E1. simpl.
  destruct (weight_matrix_step_shape self M M1 s _ L F E1) as [L1 F1].
  apply IH; auto. intros t I. apply D. now right.
Qed.

(** X4: for an instance whose station list is the one of its rows, the
    matrix is built exactly when the weight function returns on every
    row; looking a station up or writing a cell never raises. *)
Theorem get_weight_matrix_returns_iff (self : Schedule num) :
  stations self = _get_stations (schedules self) ->
  ((exists M, _get_weight_matrix self = Ret M) <->
   forall row, In row (schedules self) ->
     exists w, call (_get_weight self) row = Ret w).
Proof.
  intros St. split.
  - intros [M E] row I. unfold _get_weight_matrix in E.
    exact (weight_matrix_loop_weights self _ _ _ E row I).
  - intros W. unfold _get_weight_matrix.
    destruct (initial_shape (length (stations self))) as [L F].
    apply weight_matrix_loop_defined; trivial.
    intros s I. rewrite St.
    destruct (row_stations _ _ I). auto.
Qed.

(** ** Runs that cannot start *)

(** X5: [find_the_best_route] on an instance on which no strategy has
    been selected raises [TypeError] when there is a row at all: nothing
    is printed and the instance stays as [__init__] made it. *)
Theorem find_the_best_route_without_strategy (fuel : nat) (rows : list schedule) :
  rows <> [] ->
  find_the_best_route fuel (__init__ (num:=num) rows)
  = (__init__ rows, [], Some (Raise TypeError)).
Proof.
  intros N. unfold find_the_best_route.
  assert (E : _get_weight_matrix (__init__ (num:=num) rows) = Raise TypeError).
  { unfold _get_weight_matrix. destruct rows as [|r rows]; [congruence|].
    simpl schedules. simpl stations. simpl weight_matrix_loop.
    unfold weight_matrix_step. simpl stations. simpl _get_weight.
    destruct (row_stations (r :: rows) r (or_introl eq_refl)) as [Io Id].
    destruct (list_index_In _ _ Io) as (i & -> & _).
    destruct (list_index_In _ _ Id) as (j & -> & _). reflexivity. }
  now rewrite E.
Qed.

(** X6: with fewer than two stations (no row at all, or rows from one
    station to itself) a run whose matrix is built raises [IndexError]
    in the solver, which is started at index 1, and prints nothing. *)
Theorem find_the_best_route_needs_two_stations (fuel : nat) (self : Schedule num)
    (M : graph num) :
  _get_weight_matrix self = Ret M -> length (stations self) < 2 -> 1 <= fuel ->
  exists self',
    find_the_best_route fuel self = (self', [], Some (Raise IndexError))
    /\ _weight_matrix self' = Some M.
Proof.
  intros E L F. unfold find_the_best_route. rewrite E.
  destruct (get_weight_matrix_shape self M E) as [LM _].
  destruct fuel as [|fuel]; [lia|].
  unfold _nearest_neighbor_algorithm. simpl nna_loop. unfold select, current_row.
  unfold index at 1. destruct (nth_error M 1) eqn:N.
  - assert (1 < length M) by (apply nth_error_Some; congruence). lia.
  - simpl. eexists. split; reflexivity.
Qed.

(** ** Clock times *)

(** X7: for two clock times of one day (minutes 0..1439) the weight lies
    between 1 and 1440 and is the number of minutes that leads from the
    departure to the next occurrence of the arrival time. *)
Theorem get_weight_from_time_range (departure arrival : string) (num1 num2 : Z) :
  _date_to_num departure = Ret num1 -> _date_to_num arrival = Ret num2 ->
  (0 <= num1 < 1440)%Z -> (0 <= num2 < 1440)%Z ->
  exists w,
    _get_weight_from_time departure arrival = Ret w
    /\ (1 <= w <= 1440)%Z
    /\ ((num1 + w) mod 1440 = num2)%Z.
Proof.
  intros E1 E2 R1 R2. unfold _get_weight_from_time. rewrite E1, E2. simpl.
  eexists. split; [reflexivity|].
  destruct (Z.ltb_spec num1 num2).
  - split; [lia|]. replace (num1 + (num2 - num1))%Z with num2 by lia.
    apply Z.mod_small. lia.
  - split; [lia|].
    replace (num1 + (num2 + 1440 - num1))%Z with (num2 + 1 * 1440)%Z by lia.
    rewrite Z.mod_add by lia. apply Z.mod_small. lia.
Qed.

Lemma digits_value_step (acc : Z) (b : bool) (c : ascii) (r : list ascii) :
  is_digit c = true ->
  digits_value acc b (c :: r) = digits_value (10 * acc + digit_value c)%Z true r.
Proof.
  intros D. simpl. now rewrite D.
Qed.

Ltac digit_step IH :=
  rewrite digits_value_step by reflexivity;
  match goal with
  | |- context [digit_value ?c] =>
      let v := eval vm_compute in (digit_value c) in
      change (digit_value c) with v
  end;
  etransitivity; [| exact (IH _)]; f_equal; lia.

Lemma digits_value_uint (d : Decimal.uint) :
  forall acc : positive,
    digits_value (Z.pos acc) true (list_ascii_of_string (NilEmpty.string_of_uint d))
    = Ret (Z.pos (Pos.of_uint_acc d acc)).
Proof.
  induction d as [|d IH|d IH|d IH|d IH|d IH|d IH|d IH|d IH|d IH|d IH];
    intros acc; simpl NilEmpty.string_of_uint; simpl list_ascii_of_string;
    [reflexivity | digit_step IH ..].
Qed.

Lemma digits_value_uint0 (d : Decimal.uint) :
  digits_value 0 true (list_ascii_of_string (NilEmpty.string_of_uint d))
  = Ret (Z.of_N (Pos.of_uint d)).
Proof.
  induction d as [|d IH|d IH|d IH|d IH|d IH|d IH|d IH|d IH|d IH|d IH];
    simpl NilEmpty.string_of_uint; simpl list_ascii_of_string;
    simpl Pos.of_uint; [reflexivity | rewrite digits_value_step by reflexivity ..].
  - exact IH.
  - apply (digits_value_uint d 1).
  - apply (digits_value_uint d 2).
  - apply (digits_value_uint d 3).
  - apply (digits_value_uint d 4).
  - apply (digits_value_uint d 5).
  - apply (digits_value_uint d 6).
  - apply (digits_value_uint d 7).
  - apply (digits_value_uint d 8).
  - apply (digits_value_uint d 9).
Qed.

Lemma uint_chars (d : Decimal.uint) :
  Forall (fun c => is_digit c = true)
         (list_ascii_of_string (NilEmpty.string_of_uint d)).
Proof.
  induction d; simpl; constructor; trivial.
Qed.

Lemma lstrip_no_space (l : list ascii) :
  Forall (fun c => is_space c = false) l -> lstrip l = l.
Proof.
  intros F. destruct F as [|c l E F]; simpl; [reflexivity | now rewrite E].
Qed.

Lemma strip_no_space (l : list ascii) :
  Forall (fun c => is_space c = false) l -> strip l = l.
Proof.
  intros F. unfold strip. rewrite (lstrip_no_space l F).
  rewrite lstrip_no_space by now apply Forall_rev. apply rev_involutive.
Qed.

Lemma digit_no_space (c : ascii) : is_digit c = true -> is_space c = false.
Proof.
  unfold is_digit, is_space. intros D. apply andb_prop in D. destruct D as [A B].
  apply Nat.leb_le in A, B.
  destruct (Nat.leb_spec 9 (nat_of_ascii c)); destruct (Nat.leb_spec (nat_of_ascii c) 13);
    destruct (Nat.eqb_spec (nat_of_ascii c) 32);
    destruct (Nat.eqb_spec (nat_of_ascii c) 133);
    destruct (Nat.eqb_spec (nat_of_ascii c) 160); simpl; trivial; lia.
Qed.

Lemma digit_no_colon (c : ascii) : is_digit c = true -> c <> ":"%char.
Proof.
  intros D ->. discriminate.
Qed.

Lemma py_int_uint (d : Decimal.uint) :
  d <> Decimal.Nil ->
  strip (list_ascii_of_string (NilEmpty.string_of_uint d))
  = list_ascii_of_string (NilEmpty.string_of_uint d)
  /\ py_int (NilEmpty.string_of_uint d) = Ret (Z.of_N (Pos.of_uint d))
  /\ digits_value 0 false (list_ascii_of_string (NilEmpty.string_of_uint d))
     = Ret (Z.of_N (Pos.of_uint d)).
Proof.
  intros N.
  assert (S : strip (list_ascii_of_string (NilEmpty.string_of_uint d))
              = list_ascii_of_string (NilEmpty.string_of_uint d)).
  { apply strip_no_space. eapply Forall_impl; [|apply uint_chars].
    apply digit_no_space. }
  assert (V : digits_value 0 false (list_ascii_of_string (NilEmpty.string_of_uint d))
              = Ret (Z.of_N (Pos.of_uint d))).
  { rewrite <- digits_value_uint0. destruct d; [congruence | reflexivity ..]. }
  split; [exact S | split; [|exact V]].
  unfold py_int. rewrite S. rewrite <- V. destruct d; [congruence | reflexivity ..].
Qed.

(** [int(str(z))] is [z]. *)
Lemma py_int_str_int (z : Z) : py_int (str_int z) = Ret z.
Proof.
  unfold str_int. destruct z as [|p|p]; [reflexivity | |]; simpl Z.to_int;
    pose proof (DecimalPos.Unsigned.to_uint_nonnil p) as N;
    pose proof (DecimalPos.Unsigned.of_to p) as O;
    destruct (py_int_uint _ N) as (S & P & V).
  - replace (NilZero.string_of_int (Decimal.Pos (Pos.to_uint p)))
      with (NilEmpty.string_of_uint (Pos.to_uint p))
      by (simpl; destruct (Pos.to_uint p); [congruence | reflexivity ..]).
    rewrite P, O. reflexivity.
  - replace (NilZero.string_of_int (Decimal.Neg (Pos.to_uint p)))
      with (String "-" (NilEmpty.string_of_uint (Pos.to_uint p)))
      by (simpl; destruct (Pos.to_uint p); [congruence | reflexivity ..]).
    unfold py_int. simpl list_ascii_of_string.
    rewrite strip_no_space.
    + simpl. rewrite V, O. reflexivity.
    + constructor; [reflexivity|]. eapply Forall_impl; [|apply uint_chars].
      apply digit_no_space.
Qed.

Lemma str_int_no_colon (z : Z) :
  Forall (fun c => c <> ":"%char) (list_ascii_of_string (str_int z)).
Proof.
  assert (U : forall d, Forall (fun c => c <> ":"%char)
                          (list_ascii_of_string (NilEmpty.string_of_uint d))).
  { intros d. eapply Forall_impl; [|apply uint_chars]. apply digit_no_colon. }
  assert (U0 : forall d, Forall (fun c => c <> ":"%char)
                           (list_ascii_of_string (NilZero.string_of_uint d))).
  { intros d. destruct d; [repeat constructor; discriminate | ..];
      match goal with
      | |- context [NilZero.string_of_uint ?x] => exact (U x)
      end. }
  unfold str_int. destruct z as [|p|p]; simpl Z.to_int;
    unfold NilZero.string_of_int.
  - apply U0.
  - apply U0.
  - simpl list_ascii_of_string. constructor; [discriminate | apply U0].
Qed.

Lemma split_app_sep (sep : ascii) (a r : string) :
  Forall (fun c => c <> sep) (list_ascii_of_string a) ->
  split sep (a ++ String sep r) = a :: split sep r.
Proof.
  induction a as [|c a IH]; simpl; intros F.
  - now rewrite Ascii.eqb_refl.
  - inversion F; subst. destruct (Ascii.eqb_spec c sep); [contradiction|].
    now rewrite IH.
Qed.

Lemma py_int_format_02 (z : Z) (text : string) :
  format_02 z = Ret text ->
  py_int text = Ret z
  /\ Forall (fun c => c <> ":"%char) (list_ascii_of_string text).
Proof.
  unfold format_02. destruct (int_max_str_digits <? digits z); [discriminate|].
  intros E. inversion E as [T]. clear E T.
  destruct ((0 <=? z)%Z && (z <? 10)%Z) eqn:R.
  - apply andb_prop in R. destruct R as [A B].
    apply Z.leb_le in A. apply Z.ltb_lt in B.
    assert (C : (z = 0 \/ z = 1 \/ z = 2 \/ z = 3 \/ z = 4 \/ z = 5 \/ z = 6
                 \/ z = 7 \/ z = 8 \/ z = 9)%Z) by lia.
    repeat (destruct C as [-> | C];
            [split; [reflexivity | repeat constructor; discriminate]|]).
    subst. split; [reflexivity | repeat constructor; discriminate].
  - split; [apply py_int_str_int | apply str_int_no_colon].
Qed.

Lemma format_02_returns (z : Z) :
  digits z <= int_max_str_digits -> exists text, format_02 z = Ret text.
Proof.
  intros L. unfold format_02.
  destruct (Nat.ltb_spec int_max_str_digits (digits z)); [lia | eauto].
Qed.

(** The minutes of a clock time have at most two digits. *)
Lemma digits_minutes (m : Z) : (0 <= m < 60)%Z -> digits m <= 2.
Proof.
  intros R.
  assert (E : m = Z.of_nat (Z.to_nat m)) by lia.
  assert (L : Z.to_nat m < 60) by lia.
  revert E L. generalize (Z.to_nat m). intros k -> L.
  do 60 (destruct k as [|k]; [vm_compute; lia|]). lia.
Qed.

(** Beyond the limit on the digits [_num_to_date] raises. *)
Lemma num_to_date_beyond_limit (n : Z) :
  int_max_str_digits < digits (n / 60) -> _num_to_date n = Raise ValueError.
Proof.
  intros L. unfold _num_to_date, format_02.
  destruct (Nat.ltb_spec int_max_str_digits (digits (n / 60))); [reflexivity | lia].
Qed.

(** X8: [_date_to_num] reads back what [_num_to_date] writes: for every
    int [n] whose count of hours [n // 60] has at most 4300 digits, the
    limit up to which an int is formatted, [_num_to_date(n)] returns a
    text and [_date_to_num] of that text returns [n]. *)
Theorem date_to_num_num_to_date (n : Z) :
  digits (n / 60) <= int_max_str_digits ->
  exists date, _num_to_date n = Ret date /\ _date_to_num date = Ret n.
Proof.
  intros L. unfold _num_to_date.
  destruct (format_02_returns (n / 60) L) as [hours Eh].
  destruct (format_02_returns (n mod 60)) as [minutes Em].
  { pose proof (Z.mod_pos_bound n 60 ltac:(lia)) as B.
    apply Nat.le_trans with 2; [now apply digits_minutes|].
    unfold int_max_str_digits. lia. }
  rewrite Eh, Em. cbn [bind]. eexists. split; [reflexivity|].
  destruct (py_int_format_02 _ _ Eh) as [Ph Ch].
  destruct (py_int_format_02 _ _ Em) as [Pm Cm].
  unfold _date_to_num.
  change (hours ++ ":" ++ minutes ++ ":00")%string
    with (hours ++ String ":" (minutes ++ String ":" "00"))%string.
  rewrite (split_app_sep _ _ _ Ch), (split_app_sep _ _ _ Cm).
  unfold index. simpl nth_error. simpl.
  rewrite Ph. simpl. rewrite Pm. simpl. f_equal.
  pose proof (Z.div_mod n 60). lia.
Qed.

(** ** The solver *)

(** X9: the loop of the solver always ends, by a [return] or by an
    exception: at most N-1 iterations are made (one when N < 2), and more
    fuel does not change the outcome. *)
Theorem solver_always_ends (graph : graph num) (start_vortex : option nat) :
  exists r,
    forall fuel, 1 <= fuel -> length graph <= S fuel ->
      _nearest_neighbor_algorithm fuel graph start_vortex = Some r.
Proof.
  exact (solver_terminates graph start_vortex).
Qed.

Lemma check_vortex_defined (graph : graph num) (passed_vortices : list nat) (v : nat) :
  is_square graph = true -> v < length graph ->
  exists b, _check_vortex graph passed_vortices v = Ret b.
Proof.
  intros S L. destruct (py_in v passed_vortices) eqn:U.
  - exists false. unfold _check_vortex. now rewrite U.
  - destruct (check_vortex_square graph passed_vortices v S L U) as (b & E & _).
    eauto.
Qed.

Lemma current_row_defined (graph : graph num) (passed_vortices : list nat)
    (current_vortex : nat) :
  is_square graph = true -> current_vortex < length graph ->
  exists row, current_row graph passed_vortices current_vortex = Ret row.
Proof.
  intros S L. unfold current_row.
  destruct (index_defined graph _ L) as [r E]. rewrite E. simpl.
  apply filterM_defined. intros [i w] I. simpl.
  apply check_vortex_defined; trivial.
  apply in_enumerate in I. rewrite <- (is_square_row _ _ _ S E).
  apply nth_error_Some. congruence.
Qed.

Lemma select_square_raises (graph : graph num) (passed_vortices : list nat)
    (current_vortex : nat) (e : exn) :
  is_square graph = true -> current_vortex < length graph ->
  select graph passed_vortices current_vortex = Raise e -> e = ValueError.
Proof.
  intros S L. unfold select.
  destruct (current_row_defined graph passed_vortices current_vortex S L) as [row ->].
  simpl. destruct row; simpl; congruence.
Qed.

Lemma nna_loop_square_raises (graph : graph num) (e : exn) :
  is_square graph = true ->
  forall fuel current_vortex passed_vortices route_weight,
    current_vortex < length graph ->
    nna_loop fuel graph current_vortex passed_vortices route_weight = Some (Raise e) ->
    e = ValueError.
Proof.
  intros S. induction fuel as [|fuel IH]; intros cur passed rw L E; simpl in E;
    [discriminate|].
  destruct (select graph passed cur) as [[v mw]|e'] eqn:Sel.
  - apply select_sound in Sel. destruct Sel as (_ & Lv & _).
    destruct (length (passed ++ [v]) =? length graph); [discriminate | eauto].
  - inversion E; subst e'. exact (select_square_raises _ _ _ _ S L Sel).
Qed.

(** X10: on a square matrix and from a start index inside it, the only
    exception that the solver raises is the [ValueError] of [min] on an
    empty list of candidates. *)
Theorem solver_square_raises_ValueError (fuel : nat) (graph : graph num)
    (start_vortex : option nat) (e : exn) :
  is_square graph = true ->
  match start_vortex with Some s => s | None => 0 end < length graph ->
  _nearest_neighbor_algorithm fuel graph start_vortex = Some (Raise e) ->
  e = ValueError.
Proof.
  intros S L E. unfold _nearest_neighbor_algorithm in E.
  exact (nna_loop_square_raises graph e S _ _ _ _ L E).
Qed.

Lemma check_vortex_last (graph : graph num) (passed_vortices : list nat) (v : nat) :
  is_square graph = true -> v < length graph ->
  length graph <= length passed_vortices + 2 ->
  _check_vortex graph passed_vortices v = Ret (negb (py_in v passed_vortices)).
Proof.
  intros S L G. destruct (py_in v passed_vortices) eqn:U.
  - unfold _check_vortex. now rewrite U.
  - destruct (check_vortex_square graph passed_vortices v S L U) as ([|] & -> & B);
      [reflexivity|].
    destruct B as [B _]. destruct (B eq_refl) as (w & x & _ & _ & _ & C). lia.
Qed.

(** X11: once all but two stations are visited the filter lets every
    unvisited station through: on a square matrix with at least N-2
    visited vertices, every unvisited vertex is accepted. *)
Theorem check_vortex_accepts_last_steps (graph : graph num)
    (passed_vortices : list nat) (v : nat) :
  is_square graph = true -> v < length graph ->
  py_in v passed_vortices = false ->
  length graph <= length passed_vortices + 2 ->
  _check_vortex graph passed_vortices v = Ret true.
Proof.
  intros S L U G. rewrite (check_vortex_last graph passed_vortices v S L G).
  now rewrite U.
Qed.

Lemma select_accepting (graph : graph num) (passed_vortices : list nat)
    (current_vortex : nat) :
  is_square graph = true -> current_vortex < length graph ->
  length passed_vortices < length graph ->
  (forall v, v < length graph ->
     _check_vortex graph passed_vortices v = Ret (negb (py_in v passed_vortices))) ->
  exists v w, select graph passed_vortices current_vortex = Ret (v, w).
Proof.
  intros S Lc L A. unfold select, current_row.
  destruct (index_defined graph _ Lc) as [row E]. rewrite E. simpl.
  pose proof (is_square_row _ _ _ S E) as Lr.
  rewrite (filterM_pure _ (fun iw => negb (py_in (fst iw) passed_vortices))).
  2:{ intros [i w] I. apply in_enumerate in I. simpl. apply A.
      rewrite <- Lr. apply nth_error_Some. congruence. }
  simpl. destruct (filter _ (enumerate row)) as [|c cs] eqn:F.
  - exfalso. pose proof (unvisited_count passed_vortices (length graph)) as C.
    destruct (filter (fun i => negb (py_in i passed_vortices)) (seq 0 (length graph)))
      as [|i l] eqn:G; [simpl in C; lia|].
    assert (I : In i (i :: l)) by (left; reflexivity).
    rewrite <- G in I. apply filter_In in I. destruct I as [I U].
    apply in_seq in I. rewrite <- Lr in I.
    destruct (index_defined row i) as [w Ew]; [lia|]. apply index_Ret in Ew.
    assert (J : In (i, w) (filter (fun iw => negb (py_in (fst iw) passed_vortices))
                                  (enumerate row))).
    { apply filter_In. split; [now apply in_enumerate | exact U]. }
    rewrite F in J. destruct J.
  - simpl. destruct (min_from key_lt c cs) as [v w]. eauto.
Qed.

Lemma nna_loop_last_steps (graph : graph num) :
  is_square graph = true ->
  forall fuel current_vortex passed_vortices route_weight e,
    NoDup passed_vortices ->
    (forall i, In i passed_vortices -> i < length graph) ->
    In current_vortex passed_vortices ->
    length passed_vortices < length graph ->
    length graph <= length passed_vortices + 2 ->
    nna_loop fuel graph current_vortex passed_vortices route_weight
    <> Some (Raise e).
Proof.
  intros S. induction fuel as [|fuel IH]; intros cur passed rw e ND B Ic L G;
    simpl; [discriminate|].
  destruct (select_accepting graph passed cur S (B _ Ic) L) as (v & w & Sel).
  { intros u Lu. now apply check_vortex_last. }
  rewrite Sel. apply select_sound in Sel. destruct Sel as (Lc & Lv & U & _).
  destruct (passed_append graph passed cur v ND (fun i I => or_intror (B i I)) Lc Lv U)
    as (ND' & B' & L').
  destruct (Nat.eqb_spec (length (passed ++ [v])) (length graph)) as [Eq|Ne];
    [discriminate|].
  apply IH; trivial.
  - apply in_or_app. right. now left.
  - lia.
  - rewrite length_app. simpl. lia.
Qed.

(** X12: with two or three stations the filter never rejects anything
    and the solver always returns: on a square matrix of 2 or 3 rows and
    from a start index inside it, some sequence and total are returned
    with any fuel of 2 or more. *)
Theorem solver_small_returns (graph : graph num) (start_vortex : option nat) :
  is_square graph = true -> 2 <= length graph <= 3 ->
  match start_vortex with Some s => s | None => 0 end < length graph ->
  exists seq total,
    forall fuel, 2 <= fuel ->
      _nearest_neighbor_algorithm fuel graph start_vortex = Some (Ret (seq, total)).
Proof.
  intros S N Ls.
  destruct (solver_terminates graph start_vortex) as [r T].
  assert (E : _nearest_neighbor_algorithm 2 graph start_vortex = Some r)
    by (apply T; lia).
  destruct r as [[seq total]|e].
  - exists seq, total. intros fuel F. apply T; lia.
  - exfalso. unfold _nearest_neighbor_algorithm in E. revert E.
    apply nna_loop_last_steps;
      [exact S | | intros i [<- | []]; exact Ls | now left | simpl; lia | simpl; lia].
    constructor; [simpl; tauto | constructor].
Qed.

Lemma path_edges_length (graph : graph num) :
  forall seq ws, path_edges graph seq = Ret ws -> length ws = length seq - 1.
Proof.
  induction seq as [|u l IH]; intros ws E; [inversion E; reflexivity|].
  destruct l as [|b l]; [inversion E; reflexivity|].
  change (path_edges graph (u :: b :: l))
    with (w <- edge graph u b ;; ws <- path_edges graph (b :: l) ;; Ret (w :: ws)) in E.
  apply bind_Ret_inv in E. destruct E as (w & _ & E).
  apply bind_Ret_inv in E. destruct E as (ws' & E' & E).
  inversion E. simpl. rewrite (IH ws' E'). simpl. lia.
Qed.

(** X13: the total that the solver returns is the sum, from the left and
    starting at 0, of the N-1 matrix entries between consecutive vertices
    of the sequence, an infinite entry counting as 0; the entry from the
    last vertex back to the first is not part of it. *)
Theorem solver_total_is_path_total (fuel : nat) (graph : graph num)
    (start_vortex : option nat) (seq : list nat) (total : num) :
  _nearest_neighbor_algorithm fuel graph start_vortex = Some (Ret (seq, total)) ->
  exists ws,
    path_edges graph seq = Ret ws
    /\ length ws = length graph - 1
    /\ total = total_of ws.
Proof.
  intros E. destruct (solver_total _ _ _ _ _ E) as (ws & P & T).
  destruct (solver_sequence _ _ _ _ _ E) as (_ & _ & _ & _ & L).
  exists ws. split; [exact P | split; [|exact T]].
  rewrite (path_edges_length graph seq ws P). congruence.
Qed.

Lemma min_from_minimal (irrefl : forall x : num, num_ltb x x = false)
    (trans : forall x y z : num,
        num_ltb x y = true -> num_ltb y z = true -> num_ltb x z = true) :
  forall (l seen : list (nat * weight num)) (best : nat * weight num),
    (forall y, In y seen -> key_lt y best = false) ->
    forall y, In y (seen ++ best :: l) -> key_lt y (min_from key_lt best l) = false.
Proof.
  induction l as [|x l IH]; intros seen best B y I; simpl.
  - apply in_app_or in I. destruct I as [I | [<- | []]]; [auto|].
    apply weight_ltb_irrefl, irrefl.
  - replace (seen ++ best :: x :: l) with ((seen ++ [best]) ++ x :: l) in I
      by (rewrite <- app_assoc; reflexivity).
    destruct (key_lt x best) eqn:Lt.
    + apply (IH (seen ++ [best]) x); [|exact I].
      intros z Iz. apply in_app_or in Iz. unfold key_lt in *.
      destruct (weight_ltb (snd z) (snd x)) eqn:Lz; [|reflexivity].
      pose proof (weight_ltb_trans trans _ _ _ Lz Lt) as C.
      destruct Iz as [Iz | [<- | []]].
      * rewrite (B z Iz) in C. discriminate.
      * rewrite (weight_ltb_irrefl irrefl) in C. discriminate.
    + assert (I' : In y ((seen ++ [x]) ++ best :: l)).
      { apply in_app_or in I. rewrite <- app_assoc. simpl.
        destruct I as [I | [<- | I]].
        - apply in_app_or in I. destruct I as [I | [<- | []]].
          + apply in_or_app. now left.
          + apply in_or_app. right. right. now left.
        - apply in_or_app. right. now left.
        - apply in_or_app. right. right. now right. }
      apply (IH (seen ++ [x]) best); [|exact I'].
      intros z Iz. apply in_app_or in Iz. destruct Iz as [Iz | [<- | []]]; auto.
Qed.

(** X14: each step is a nearest-neighbour step: the pair chosen by [min]
    is one of the candidates of the step and no candidate has a smaller
    weight.  The order [<] of the numbers is taken irreflexive and
    transitive. *)
Theorem select_minimal (graph : graph num) (passed_vortices : list nat)
    (current_vortex v : nat) (min_weight : weight num) :
  (forall x : num, num_ltb x x = false) ->
  (forall x y z : num, num_ltb x y = true -> num_ltb y z = true -> num_ltb x z = true) ->
  select graph passed_vortices current_vortex = Ret (v, min_weight) ->
  exists row,
    current_row graph passed_vortices current_vortex = Ret row
    /\ In (v, min_weight) row
    /\ forall i w, In (i, w) row -> weight_ltb w min_weight = false.
Proof.
  intros irrefl trans E. unfold select in E.
  apply bind_Ret_inv in E. destruct E as (row & R & M).
  exists row. split; [exact R|]. split; [now apply py_min_In in M|].
  destruct row as [|c cs]; [discriminate|]. simpl in M. inversion M as [M'].
  intros i w I.
  pose proof (min_from_minimal irrefl trans cs [] c
                (fun y (F : In y []) => match F with end) (i, w) I) as K.
  rewrite M' in K. exact K.
Qed.

(** X15: what the filter computes on a square matrix.  A visited vertex
    is rejected.  An unvisited vertex [v] is rejected exactly when fewer
    than N-2 vertices are visited and some vertex [w], visited or not, has
    at most one unvisited vertex left to go to, while the entry from [v]
    to [w] is finite and is not equal, as a number, to the index of a
    visited vertex; otherwise [v] is accepted.  The filter never
    raises. *)
Theorem check_vortex_exact (graph : graph num) (passed_vortices : list nat) (v : nat) :
  is_square graph = true -> v < length graph ->
  exists b,
    _check_vortex graph passed_vortices v = Ret b
    /\ (py_in v passed_vortices = true -> b = false)
    /\ (py_in v passed_vortices = false ->
        (b = false <->
         exists w x,
           edge graph v w = Ret (Fin x)
           /\ weight_in (Fin x) passed_vortices = false
           /\ length (remaining graph passed_vortices w) <= 1
           /\ length passed_vortices + 2 < length graph)).
Proof.
  intros S L. destruct (py_in v passed_vortices) eqn:U.
  - exists false. unfold _check_vortex. rewrite U. repeat split; congruence.
  - destruct (check_vortex_square graph passed_vortices v S L U) as (b & E & B).
    exists b. split; [exact E|]. split; [discriminate | intros _; exact B].
Qed.

(** ** Two runs in a row *)

Lemma weight_matrix_loop_forget (self : Schedule num) :
  forall (todo : list schedule) (M : graph num),
    weight_matrix_loop (forget_matrix self) M todo = weight_matrix_loop self M todo.
Proof.
  induction todo as [|s todo IH]; intros M; simpl; [reflexivity|].
  change (weight_matrix_step (forget_matrix self) M s) with (weight_matrix_step self M s).
  destruct (weight_matrix_step self M s); simpl; auto.
Qed.

Lemma first_exect_forget (self : Schedule num) (route : list leg) :
  forall todo, first_exect (forget_matrix self) todo route = first_exect self todo route.
Proof.
  induction todo as [|s todo IH]; simpl; [reflexivity|].
  change (is_exect (forget_matrix self) s route) with (is_exect self s route).
  destruct (is_exect self s route) as [[|]|]; simpl; auto.
Qed.

Lemma print_loop_forget (self : Schedule num) :
  forall fuel route,
    print_loop fuel (forget_matrix self) route = print_loop fuel self route.
Proof.
  induction fuel as [|fuel IH]; intros [|l route]; simpl; trivial.
  change (schedules (forget_matrix self)) with (schedules self).
  rewrite first_exect_forget.
  destruct (first_exect self (schedules self) (l :: route)) as [[s|]|];
    [rewrite IH; reflexivity | apply IH | reflexivity].
Qed.

Lemma find_the_best_route_forget (fuel : nat) (self : Schedule num) :
  snd (fst (find_the_best_route fuel (forget_matrix self)))
  = snd (fst (find_the_best_route fuel self))
  /\ snd (find_the_best_route fuel (forget_matrix self))
     = snd (find_the_best_route fuel self)
  /\ forget_matrix (fst (fst (find_the_best_route fuel self))) = forget_matrix self.
Proof.
  unfold find_the_best_route.
  assert (E : _get_weight_matrix (forget_matrix self) = _get_weight_matrix self)
    by apply weight_matrix_loop_forget.
  rewrite E. clear E. destruct self as [sch st m gw ie1 ie2 fr sm].
  cbn [forget_matrix schedules stations _weight_matrix _get_weight
       _is_exact_schedule _is_exect_schedule _formatting_result _search_mode].
  match goal with
  | |- context [match ?c with Ret _ => _ | Raise _ => _ end] =>
      destruct c as [M|e]; [|auto]
  end.
  split; [reflexivity | split; [reflexivity|]].
  destruct (_nearest_neighbor_algorithm fuel M (Some 1)) as [[nna_result|e]|];
    try reflexivity.
  match goal with
  | |- context [match ?c with Ret _ => _ | Raise _ => _ end] =>
      destruct c; try reflexivity
  end.
  destruct fr; try reflexivity.
  match goal with
  | |- context [print_loop fuel ?s ?r] => destruct (print_loop fuel s r); reflexivity
  end.
Qed.

(** X16: in the program the run in time mode does not depend on the run
    in price mode that comes before it: when the price run ends normally,
    the lines printed after it and the way the program ends are those of
    a run in time mode on a fresh instance; the matrix of the first run
    is not used again.  When the price run does not end normally, the
    program ends with it. *)
Theorem main_runs_independent (fuel : nat) (rows : list schedule) :
  main (num:=num) fuel rows
  = let '(_, out1, r1) :=
      find_the_best_route fuel (fst (set_search_by "price" (__init__ rows))) in
    match r1 with
    | Some (Ret _) =>
        let '(_, out2, r2) :=
          find_the_best_route fuel (fst (set_search_by "time" (__init__ rows))) in
        (out1 ++ out2, r2)
    | _ => (out1, r1)
    end.
Proof.
  unfold main.
  set (first := fst (set_search_by "price" (__init__ (num:=num) rows))).
  change (set_search_by "price" (__init__ rows)) with (first, @Ret unit tt).
  destruct (find_the_best_route_forget fuel first) as (_ & _ & F).
  destruct (find_the_best_route fuel first) as [[s1 out1] r1]. simpl in F.
  destruct r1 as [[[]|e]|]; trivial.
  change (set_search_by "time" s1)
    with (fst (set_search_by "time" s1), @Ret unit tt).
  destruct (find_the_best_route_forget fuel (fst (set_search_by "time" s1)))
    as (O1 & R1 & _).
  assert (E : forget_matrix (fst (set_search_by "time" s1))
              = fst (set_search_by "time" (__init__ (num:=num) rows))).
  { change (forget_matrix (fst (set_search_by "time" s1)))
      with (fst (set_search_by "time" (forget_matrix s1))).
    rewrite F. reflexivity. }
  rewrite E in O1, R1.
  destruct (find_the_best_route fuel (fst (set_search_by "time" s1))) as [[s2 out2] r2].
  destruct (find_the_best_route fuel (fst (set_search_by "time" (__init__ rows))))
    as [[s3 out3] r3].
  simpl in O1, R1. now subst.
Qed.

(** ** A run over existing connections *)















(** ** Degenerate inputs and ties *)

(** X18: a start index outside the matrix, in particular any start on an
    empty matrix, makes the solver raise [IndexError] at its first step;
    on a matrix with a single station the first step has no candidate and
    the solver raises [ValueError]. *)
Theorem solver_degenerate_inputs (fuel : nat) :
  (forall (graph : graph num) (start_vortex : option nat),
     length graph <= match start_vortex with Some s => s | None => 0 end ->
     _nearest_neighbor_algorithm (S fuel) graph start_vortex = Some (Raise IndexError))
  /\ (forall w : weight num,
        _nearest_neighbor_algorithm (S fuel) [[w]] None = Some (Raise ValueError)).
Proof.
  split.
  - intros graph start_vortex L. unfold _nearest_neighbor_algorithm.
    simpl nna_loop. unfold select, current_row, index at 1.
    destruct (nth_error graph _) eqn:N; [|reflexivity].
    assert (X : match start_vortex with Some s => s | None => 0 end < length graph)
      by (apply nth_error_Some; congruence).
    lia.
  - intros w. reflexivity.
Qed.

Lemma min_from_split {A : Type} (lt : A -> A -> bool)
    (trans : forall a b c, lt a b = true -> lt b c = true -> lt a c = true)
    (weak : forall a b c, lt a b = true -> lt a c = true \/ lt c b = true) :
  forall (l pre : list A) (best : A) (mid : list A),
    (forall y, In y pre -> lt best y = true) ->
    (forall y, In y mid -> lt y best = false) ->
    exists pre' post',
      pre ++ best :: mid ++ l = pre' ++ min_from lt best l :: post'
      /\ forall y, In y pre' -> lt (min_from lt best l) y = true.
Proof.
  induction l as [|x l IH]; intros pre best mid P M; simpl.
  - exists pre, mid. rewrite app_nil_r. auto.
  - destruct (lt x best) eqn:Lt.
    + destruct (IH (pre ++ best :: mid) x []) as (pre' & post' & E & Q).
      * intros y I. apply in_app_or in I. destruct I as [I | [<- | I]].
        -- apply trans with best; auto.
        -- exact Lt.
        -- destruct (weak x best y Lt) as [K | K]; [exact K|].
           rewrite (M y I) in K. discriminate.
      * intros y [].
      * exists pre', post'. split; [|exact Q]. rewrite <- E.
        rewrite <- app_assoc. reflexivity.
    + destruct (IH pre best (mid ++ [x])) as (pre' & post' & E & Q).
      * exact P.
      * intros y I. apply in_app_or in I. destruct I as [I | [<- | []]]; auto.
      * exists pre', post'. split; [|exact Q]. rewrite <- E.
        rewrite <- app_assoc. reflexivity.
Qed.

Lemma filterM_enumerate_order {A : Type} (cond : nat * A -> result bool) :
  forall (l : list A) (k : nat) (row pre post : list (nat * A)) (x : nat * A),
    filterM cond (combine (seq k (length l)) l) = Ret row ->
    row = pre ++ x :: post ->
    k <= fst x /\ forall y, In y post -> fst x < fst y.
Proof.
  induction l as [|a l IH]; intros k row pre post x E R; simpl in E.
  - inversion E; subst. destruct pre; discriminate.
  - apply bind_Ret_inv in E. destruct E as (b & Eb & E).
    apply bind_Ret_inv in E. destruct E as (r' & Er & E).
    inversion E as [E']. clear E. rewrite R in E'.
    assert (G : forall y, In y r' -> S k <= fst y).
    { intros [i w] I. apply (filterM_In _ _ _ Er) in I. destruct I as [I _].
      apply in_combine_seq in I. simpl. tauto. }
    destruct b.
    + destruct pre as [|p0 pre]; simpl in E'; inversion E'; subst.
      * split; [simpl; lia|]. intros y I. specialize (G y I). simpl. lia.
      * destruct (IH (S k) _ pre post x Er eq_refl) as [K O]. split; [lia | exact O].
    + destruct (IH (S k) _ pre post x Er E') as [K O]. split; [lia | exact O].
Qed.

(** X19: ties go to the lowest index: every candidate with a lower index
    than the chosen vertex has a strictly larger weight.  The order [<]
    of the numbers is taken transitive, and such that [x < y] implies
    [x < z] or [z < y] for every [z], as it is on ints and on floats
    other than nan. *)
Theorem select_lowest_index (graph : graph num) (passed_vortices : list nat)
    (current_vortex v : nat) (min_weight : weight num) :
  (forall x y z : num, num_ltb x y = true -> num_ltb y z = true -> num_ltb x z = true) ->
  (forall x y z : num, num_ltb x y = true -> num_ltb x z = true \/ num_ltb z y = true) ->
  select graph passed_vortices current_vortex = Ret (v, min_weight) ->
  exists row,
    current_row graph passed_vortices current_vortex = Ret row
    /\ forall i w, In (i, w) row -> i < v -> weight_ltb min_weight w = true.
Proof.
  intros trans weak E. unfold select in E.
  apply bind_Ret_inv in E. destruct E as (row & R & M).
  exists row. split; [exact R|].
  destruct row as [|c cs]; [discriminate|]. simpl in M. inversion M as [M'].
  destruct (min_from_split key_lt) with (l := cs) (pre := @nil (nat * weight num))
    (best := c) (mid := @nil (nat * weight num)) as (pre & post & S & Q).
  - intros a b d. unfold key_lt. apply weight_ltb_trans. exact trans.
  - intros a b d. unfold key_lt.
    destruct (snd a) as [x|], (snd b) as [y|], (snd d) as [z|]; simpl; auto.
  - intros y [].
  - intros y [].
  - simpl in S. rewrite M' in S, Q.
    unfold current_row in R. apply bind_Ret_inv in R. destruct R as (r & _ & R).
    destruct (filterM_enumerate_order _ r 0 _ pre post (v, min_weight) R S) as [_ O].
    intros i w I L. rewrite S in I. apply in_app_or in I.
    destruct I as [I | [I | I]].
    + exact (Q (i, w) I).
    + inversion I. lia.
    + specialize (O (i, w) I). simpl in O. lia.
Qed.

End Further.

Lemma get_weight_matrix_square_witness :
  length [[Inf; Fin 20; Inf]; [Inf; Inf; Fin 30]; [Fin 30; Inf; Inf]]%Z
  = length (stations by_time)
  /\ forall row,
       In row [[Inf; Fin 20; Inf]; [Inf; Inf; Fin 30]; [Fin 30; Inf; Inf]]%Z ->
       length row = length (stations by_time).
Proof.
  apply (get_weight_matrix_square by_time). reflexivity.
Defined.

Lemma get_weight_matrix_returns_iff_witness :
  (exists M, _get_weight_matrix by_time = Ret M) <->
  forall row, In row (schedules by_time) ->
    exists w, call (_get_weight by_time) row = Ret w.
Proof.
  apply (get_weight_matrix_returns_iff by_time). reflexivity.
Defined.

Lemma find_the_best_route_without_strategy_witness :
  find_the_best_route 3 (__init__ (num:=Z) timetable)
  = (__init__ timetable, [], Some (Raise TypeError)).
Proof.
  apply (find_the_best_route_without_strategy 3 timetable). discriminate.
Defined.

Lemma find_the_best_route_needs_two_stations_witness :
  exists self',
    find_the_best_route 1 (fst (set_search_by "time" (__init__ (num:=Z) [])))
    = (self', [], Some (Raise IndexError))
    /\ _weight_matrix self' = Some [].
Proof.
  apply (find_the_best_route_needs_two_stations 1
           (fst (set_search_by "time" (__init__ (num:=Z) []))) []).
  - reflexivity.
  - simpl. lia.
  - lia.
Defined.

Lemma get_weight_from_time_range_witness :
  exists w,
    _get_weight_from_time "23:50" "00:10" = Ret w
    /\ (1 <= w <= 1440)%Z
    /\ ((1430 + w) mod 1440 = 10)%Z.
Proof.
  apply (get_weight_from_time_range "23:50" "00:10" 1430 10);
    [reflexivity | reflexivity | lia | lia].
Defined.

Lemma date_to_num_num_to_date_witness :
  digits (545 / 60) <= int_max_str_digits
  /\ exists date, _num_to_date 545 = Ret date /\ _date_to_num date = Ret 545%Z.
Proof.
  assert (L : digits (545 / 60) <= int_max_str_digits)
    by (apply Nat.leb_le; reflexivity).
  split; [exact L | exact (date_to_num_num_to_date 545 L)].
Defined.

Lemma solver_square_raises_ValueError_witness : ValueError = ValueError.
Proof.
  apply (solver_square_raises_ValueError 3 four_ring None ValueError);
    [reflexivity | simpl; lia | reflexivity].
Defined.

Lemma check_vortex_accepts_last_steps_witness :
  _check_vortex three_stations [0] 1 = Ret true.
Proof.
  apply (check_vortex_accepts_last_steps three_stations [0] 1);
    [reflexivity | simpl; lia | reflexivity | simpl; lia].
Defined.

Lemma solver_small_returns_witness :
  exists seq total,
    forall fuel, 2 <= fuel ->
      _nearest_neighbor_algorithm fuel three_stations None = Some (Ret (seq, total)).
Proof.
  apply (solver_small_returns three_stations None);
    [reflexivity | simpl; lia | simpl; lia].
Defined.

Lemma solver_total_is_path_total_witness :
  exists ws,
    path_edges [[Inf; Fin 30; Inf]; [Inf; Inf; Fin 30]; [Inf; Inf; Inf]]%Z [1; 2; 0]
    = Ret ws
    /\ length ws = 3 - 1
    /\ 30%Z = total_of ws.
Proof.
  apply (solver_total_is_path_total 2
           [[Inf; Fin 30; Inf]; [Inf; Inf; Fin 30]; [Inf; Inf; Inf]]%Z (Some 1)
           [1; 2; 0] 30%Z).
  reflexivity.
Defined.

Lemma select_minimal_witness :
  exists row,
    current_row four_stations [0] 0 = Ret row
    /\ In (1, Fin 10%Z) row
    /\ forall i w, In (i, w) row -> weight_ltb w (Fin 10%Z) = false.
Proof.
  apply (@select_minimal Z PyWhole four_stations [0] 0 1 (Fin 10%Z)
           Z.ltb_irrefl Z_ltb_trans).
  reflexivity.
Defined.

Lemma check_vortex_exact_witness :
  exists b,
    _check_vortex five_stations [0] 1 = Ret b
    /\ (py_in 1 [0] = true -> b = false)
    /\ (py_in 1 [0] = false ->
        (b = false <->
         exists w x,
           edge five_stations 1 w = Ret (Fin x)
           /\ weight_in (Fin x) [0] = false
           /\ length (remaining five_stations [0] w) <= 1
           /\ length [0] + 2 < length five_stations)).
Proof.
  apply (check_vortex_exact five_stations [0] 1); [reflexivity | simpl; lia].
Defined.


Lemma Z_ltb_weak (x y z : Z) :
  (x <? y)%Z = true -> (x <? z)%Z = true \/ (z <? y)%Z = true.
Proof.
  rewrite !Z.ltb_lt. lia.
Qed.

Lemma select_lowest_index_witness :
  exists row,
    current_row [[Inf; Fin 7; Fin 5]; [Fin 1; Inf; Fin 1]; [Fin 1; Fin 1; Inf]]%Z
                [0] 0 = Ret row
    /\ forall i w, In (i, w) row -> i < 2 -> weight_ltb (Fin 5%Z) w = true.
Proof.
  apply (@select_lowest_index Z PyWhole
           [[Inf; Fin 7; Fin 5]; [Fin 1; Inf; Fin 1]; [Fin 1; Fin 1; Inf]]%Z
           [0] 0 2 (Fin 5%Z) Z_ltb_trans Z_ltb_weak).
  reflexivity.
Defined.
